(** * Duplicate detection over a vector store: [src/services/rag_service.py]

    A shallow embedding of [RAGService] and of the two data classes it
    handles ([Email] and [DuplicateEmailGroup] of [src/models/email.py]),
    followed by the properties of ingestion, similarity search and batch
    grouping.

    Conventions.
    - Python [float]s are idealised as rationals ([Q]); [>=] on floats is
      [Qle_bool].  The statements are chosen to hold as well when the
      arithmetic is read as the program's rounded one; where rounding
      matters, line 115 is also given in binary64 ([similarity_binary64]).
    - A Python exception is a [Raise] in the [result] monad; [try]/[except]
      is [try_except].
    - The [structlog] calls only print; they change neither the returned
      values nor the store and are left out. *)

From Stdlib Require Import Ascii String QArith Lqa PrimFloat.
From stdpp Require Import base option list gmap strings sorting.

Set Default Proof Using "Type".
Local Open Scope Z_scope.

(** ** Exceptions and the error monad *)

Inductive exn : Set :=
  | EncodeError          (* the embedding model could not encode the text *)
  | NotFoundError        (* the collection does not exist (any more) *)
  | UniqueConstraintError (* create_collection on a name already in use *)
  | DuplicateIDError     (* add of an id already stored, strict releases *)
  | InvalidDimension     (* embedding of the wrong dimensionality *)
  | ValueError           (* n_results not positive *)
  | IndexError.          (* list index out of range *)

Inductive result (A : Type) : Type :=
  | Ok (a : A)
  | Raise (e : exn).
Arguments Ok {A} a.
Arguments Raise {A} e.

#[global] Instance result_ret : MRet result := λ A a, Ok a.
#[global] Instance result_bind : MBind result := λ A B f m,
  match m with
  | Ok a => f a
  | Raise e => Raise e
  end.

(** [try: body except Exception as e: handler e] *)
Definition try_except {A : Type} (body : result A) (handler : exn → A) : A :=
  match body with
  | Ok a => a
  | Raise e => handler e
  end.

(** [l[i]] on a Python list: [IndexError] when out of range. *)
Definition getitem {A : Type} (l : list A) (i : nat) : result A :=
  match l !! i with
  | Some x => Ok x
  | None => Raise IndexError
  end.

(** ** The data classes of [src/models/email.py] *)

Module Email.
(** The fields [rag_service.py] reads; [date] is held as the text its
    [isoformat()] prints. *)
Record t : Type := mk {
  id : string;
  message_id : string;
  sender : string;
  subject : string;
  body : string;
  date : string
}.
End Email.

Module DuplicateEmailGroup.
Record t : Type := mk {
  primary_email_id : string;
  duplicate_ids : list string;
  similarity_scores : list Q;
  subject : string;
  count : nat
}.
End DuplicateEmailGroup.

(** ** The vector store

    [chromadb] is a third-party package: the repository holds none of its
    code.  The part of it that [RAGService] calls is modelled in memory on
    the behaviour its documentation states:
    - a collection maps ids to (embedding, document, metadata);
    - [Collection.add] never overwrites: an id that is already stored is
      skipped (current releases) or rejected with [DuplicateIDError]
      (strict releases, selected by [reject_duplicate_ids]); overwriting is
      what [upsert] is for;
    - [Collection.query] reports, nearest first, at most [n_results] stored
      ids with their distance to the query embedding in the default ["l2"]
      space, the squared Euclidean norm of the difference;
    - [Collection.add] rejects an empty embedding;
    - embeddings of a dimensionality other than the collection's are
      rejected, as is a non-positive [n_results];
    - how entries at one and the same distance follow each other in an
      answer is left to the store; no statement depends on it;
    - [delete_collection] needs the collection to exist and
      [create_collection] needs the name to be free. *)
Module Chroma.

Record Entry : Type := mkEntry {
  embedding : list Q;
  document : string;
  metadata : gmap string string
}.

Record CollectionData : Type := mkCollectionData {
  dimension : option nat;
  entries : gmap string Entry
}.

Record Client : Type := mkClient {
  collections : gmap string CollectionData;
  reject_duplicate_ids : bool
}.

(** What [Collection.query] returns with [include=["distances", ...]]:
    one row per query embedding. *)
Record QueryResult : Type := mkQueryResult {
  ids : list (list string);
  distances : list (list Q)
}.

Definition l2 (u v : list Q) : Q :=
  foldr Qplus 0%Q (zip_with (λ a b, (a - b) * (a - b))%Q u v).

Definition dimension_ok (cd : CollectionData) (v : list Q) : bool :=
  match dimension cd with
  | Some d => bool_decide (length v = d)
  | None => true
  end.

Fixpoint insert_nearest (x : string * Q) (l : list (string * Q))
    : list (string * Q) :=
  match l with
  | [] => [x]
  | y :: l' =>
      if Qle_bool x.2 y.2 then x :: y :: l' else y :: insert_nearest x l'
  end.

Definition nearest_first (l : list (string * Q)) : list (string * Q) :=
  foldr insert_nearest [] l.

Definition empty_collection : CollectionData :=
  {| dimension := None; entries := ∅ |}.

Definition with_collections (c : Client)
    (m : gmap string CollectionData) : Client :=
  {| collections := m; reject_duplicate_ids := reject_duplicate_ids c |}.

(** The handle an operation returns is the collection's name. *)
Definition get_or_create_collection (c : Client) (name : string)
    : Client * string :=
  match collections c !! name with
  | Some _ => (c, name)
  | None => (with_collections c (<[name := empty_collection]> (collections c)), name)
  end.

Definition create_collection (c : Client) (name : string)
    : result (Client * string) :=
  match collections c !! name with
  | Some _ => Raise UniqueConstraintError
  | None =>
      Ok (with_collections c (<[name := empty_collection]> (collections c)), name)
  end.

Definition delete_collection (c : Client) (name : string) : result Client :=
  match collections c !! name with
  | Some _ => Ok (with_collections c (delete name (collections c)))
  | None => Raise NotFoundError
  end.

Definition add (c : Client) (handle : string) (id : string)
    (v : list Q) (doc : string) (md : gmap string string) : result Client :=
  match v with
  | [] => Raise ValueError
  | _ :: _ =>
      match collections c !! handle with
      | None => Raise NotFoundError
      | Some cd =>
          if negb (dimension_ok cd v) then Raise InvalidDimension
          else match entries cd !! id with
               | Some _ =>
                   if reject_duplicate_ids c then Raise DuplicateIDError
                   else Ok c
               | None =>
                   Ok (with_collections c
                         (<[handle := {| dimension := Some (length v);
                                         entries := <[id := mkEntry v doc md]> (entries cd) |}]>
                            (collections c)))
               end
      end
  end.

Definition scored (cd : CollectionData) (v : list Q) : list (string * Q) :=
  (λ kv, (kv.1, l2 v (embedding kv.2))) <$> map_to_list (entries cd).

(** The pairs a query reports, before they are split into the two
    parallel rows of the result. *)
Definition nearest (cd : CollectionData) (v : list Q) (n_results : Z)
    : list (string * Q) :=
  take (Z.to_nat n_results) (nearest_first (scored cd v)).

Definition query (c : Client) (handle : string) (v : list Q) (n_results : Z)
    : result QueryResult :=
  match collections c !! handle with
  | None => Raise NotFoundError
  | Some cd =>
      if bool_decide (n_results ≤ 0) then Raise ValueError
      else if negb (dimension_ok cd v) then Raise InvalidDimension
      else
        let nearest := nearest cd v n_results in
        Ok {| ids := [nearest.*1]; distances := [nearest.*2] |}
  end.

Definition count (c : Client) (handle : string) : result nat :=
  match collections c !! handle with
  | None => Raise NotFoundError
  | Some cd => Ok (size (entries cd))
  end.

(** [Collection.get(ids=[id])], used only to state what is stored. *)
Definition get (c : Client) (handle : string) (id : string) : option Entry :=
  cd ← collections c !! handle; entries cd !! id.

End Chroma.

(** ** [RAGService] *)

Record RAGService : Type := mkRAGService {
  client : Chroma.Client;
  collection : string
}.

Definition collection_name : string := "email_embeddings".

Definition newline : string := String "010"%char EmptyString.

(** [f"{email.subject}\n\n{email.body[:1000]}"] *)
Definition embedding_text (email : Email.t) : string :=
  Email.subject email +:+ newline +:+ newline
    +:+ substring 0 1000 (Email.body email).

Definition email_metadata (email : Email.t) : gmap string string :=
  <["email_id" := Email.id email]>
    (<["subject" := Email.subject email]>
       (<["sender" := Email.sender email]>
          (<["date" := Email.date email]> ∅))).

(** [similarity = 1 - (distance / 2)] *)
Definition similarity_of (distance : Q) : Q := (1 - distance / 2)%Q.

(** The same line 115 with the arithmetic the program runs it in, the
    binary64 of a Python [float]. *)
Definition similarity_binary64 (distance : float) : float :=
  (1 - distance / 2)%float.

(** Lines 114-118 for one answer of the store, in binary64: the score the
    loop appends, if it appends one. *)
Definition keeps_binary64 (threshold distance : float) : option float :=
  let similarity := similarity_binary64 distance in
  if (threshold <=? similarity)%float then Some similarity else None.

(** The body of the [for i, email_id in enumerate(results["ids"][0])] loop
    of [find_similar_emails]; [i] is the index of the head of [ids0]. *)
Fixpoint scan_results (results : Chroma.QueryResult) (self_id : string)
    (threshold : Q) (i : nat) (ids0 : list string)
    (similar_emails : list (string * Q)) : result (list (string * Q)) :=
  match ids0 with
  | [] => Ok similar_emails
  | email_id :: rest =>
      if decide (email_id = self_id)
      then scan_results results self_id threshold (S i) rest similar_emails
      else
        row ← getitem (Chroma.distances results) 0;
        distance ← getitem row i;
        let similarity := similarity_of distance in
        if Qle_bool threshold similarity
        then scan_results results self_id threshold (S i) rest
               (similar_emails ++ [(email_id, similarity)])
        else scan_results results self_id threshold (S i) rest similar_emails
  end.

Section Service.

(** [self.embedding_model.encode(text).tolist()]: the sentence encoder is
    a third-party model; any function from text to a vector, or to a
    failure, may stand for it. *)
Variable encode : string → result (list Q).

(** [__init__], over whatever the persistence directory already holds. *)
Definition init (c : Chroma.Client) : RAGService :=
  let '(c', h) := Chroma.get_or_create_collection c collection_name in
  {| client := c'; collection := h |}.

Definition add_email_body (self : RAGService) (email : Email.t)
    : result RAGService :=
  let embedding_text := embedding_text email in
  embedding ← encode embedding_text;
  c ← Chroma.add (client self) (collection self) (Email.id email)
        embedding embedding_text (email_metadata email);
  Ok {| client := c; collection := collection self |}.

Definition add_email (self : RAGService) (email : Email.t) : RAGService :=
  try_except (add_email_body self email) (λ _, self).

Definition find_similar_emails_body (self : RAGService) (email : Email.t)
    (threshold : Q) (limit : Z) : result (list (string * Q)) :=
  let embedding_text := embedding_text email in
  embedding ← encode embedding_text;
  results ← Chroma.query (client self) (collection self) embedding limit;
  match Chroma.ids results with
  | (_ :: _) as ids0 :: _ =>
      scan_results results (Email.id email) threshold 0 ids0 []
  | _ => Ok []
  end.

Definition find_similar_emails (self : RAGService) (email : Email.t)
    (threshold : Q) (limit : Z) : list (string * Q) :=
  try_except (find_similar_emails_body self email threshold limit) (λ _, []).

(** The [for email in emails] loop of [detect_duplicates]. *)
Fixpoint detect_loop (self : RAGService) (threshold : Q)
    (emails : list Email.t)
    (duplicate_groups : list DuplicateEmailGroup.t)
    (processed_ids : gset string) : list DuplicateEmailGroup.t :=
  match emails with
  | [] => duplicate_groups
  | email :: rest =>
      if decide (Email.id email ∈ processed_ids)
      then detect_loop self threshold rest duplicate_groups processed_ids
      else
        let similar := find_similar_emails self email threshold 10 in
        match similar with
        | [] => detect_loop self threshold rest duplicate_groups processed_ids
        | _ :: _ =>
            let duplicate_ids := similar.*1 in
            let similarity_scores := similar.*2 in
            let group :=
              {| DuplicateEmailGroup.primary_email_id := Email.id email;
                 DuplicateEmailGroup.duplicate_ids := duplicate_ids;
                 DuplicateEmailGroup.similarity_scores := similarity_scores;
                 DuplicateEmailGroup.subject := Email.subject email;
                 DuplicateEmailGroup.count := length duplicate_ids + 1 |} in
            detect_loop self threshold rest
              (duplicate_groups ++ [group])
              (processed_ids ∪ {[Email.id email]} ∪ list_to_set duplicate_ids)
        end
  end.

Definition detect_duplicates (self : RAGService) (emails : list Email.t)
    (threshold : Q) : list DuplicateEmailGroup.t :=
  try_except (Ok (detect_loop self threshold emails [] ∅)) (λ _, []).

Definition get_email_count (self : RAGService) : nat :=
  try_except (Chroma.count (client self) (collection self)) (λ _, 0%nat).

(** The two calls of [clear_store] act on the client one after the other:
    what the first has deleted stays deleted when the second raises, and
    [self.collection] is assigned only when both have returned. *)
Definition clear_store (self : RAGService) : RAGService :=
  match Chroma.delete_collection (client self) collection_name with
  | Raise _ => self
  | Ok c =>
      match Chroma.create_collection c collection_name with
      | Raise _ => {| client := c; collection := collection self |}
      | Ok (c', h) => {| client := c'; collection := h |}
      end
  end.

End Service.

(** ** Vocabulary of the statements *)

(** What the collection of the service holds for an id. *)
Definition stored (self : RAGService) (id : string) : option Chroma.Entry :=
  Chroma.get (client self) (collection self) id.

(** The ids a group places: its primary, then its members. *)
Definition group_ids (g : DuplicateEmailGroup.t) : list string :=
  DuplicateEmailGroup.primary_email_id g :: DuplicateEmailGroup.duplicate_ids g.

Definition all_group_ids (groups : list DuplicateEmailGroup.t) : list string :=
  groups ≫= group_ids.

(** Whether the lookup that [detect_duplicates] makes for an email goes
    through without an exception. *)
Definition lookup_succeeds (encode : string → result (list Q))
    (self : RAGService) (threshold : Q) (email : Email.t) : bool :=
  match find_similar_emails_body encode self email threshold 10 with
  | Ok _ => true
  | Raise _ => false
  end.

(** The calls that change the state of a running service. *)
Inductive op : Type :=
  | AddEmail (email : Email.t)
  | ClearStore.

Definition apply_op (encode : string → result (list Q))
    (self : RAGService) (o : op) : RAGService :=
  match o with
  | AddEmail email => add_email encode self email
  | ClearStore => clear_store self
  end.

(** Cluster exclusivity as the specification words it: no id twice among
    the primaries and members of the groups of one call. *)
Definition cluster_exclusive (groups : list DuplicateEmailGroup.t) : Prop :=
  NoDup (all_group_ids groups).

(** Last write wins, as the specification words it: after a second
    [add_email] under the same id the count is unchanged and the entry is
    the text and metadata of the second call. *)
Definition last_write_wins (encode : string → result (list Q))
    (self : RAGService) (first second : Email.t) : Prop :=
  let st1 := add_email encode self first in
  let st2 := add_email encode st1 second in
  get_email_count st2 = get_email_count st1 ∧
  Chroma.document <$> stored st2 (Email.id second) = Some (embedding_text second) ∧
  Chroma.metadata <$> stored st2 (Email.id second) = Some (email_metadata second).

(** A failure inside a batch empties its result, as the specification
    words it. *)
Definition failure_empties_batch (encode : string → result (list Q))
    (self : RAGService) (emails : list Email.t) (threshold : Q) : Prop :=
  (∃ email, email ∈ emails ∧ lookup_succeeds encode self threshold email = false) →
  detect_duplicates encode self emails threshold = [].

(** A score of 1.0 meaning identical, as the specification words it: the
    loop gives an answer the score 1.0 only when its distance is 0. *)
Definition one_means_identical (threshold distance : float) : Prop :=
  ∀ score, keeps_binary64 threshold distance = Some score →
           (score =? 1)%float = true → (distance =? 0)%float = true.

(** The embedded text as the first 1000 characters of subject and body put
    together, whatever stands between the two. *)
Definition text_is_truncated_concatenation (email : Email.t) : Prop :=
  ∃ sep, embedding_text email =
         substring 0 1000 (Email.subject email +:+ sep +:+ Email.body email).

(** ** Sample data *)

(** An encoder given by a table; a text outside the table cannot be
    encoded. *)
Definition table_encoder (table : list (string * list Q)) (text : string)
    : result (list Q) :=
  match list_find (λ kv, kv.1 = text) table with
  | Some (_, kv) => Ok kv.2
  | None => Raise EncodeError
  end.

Definition mail (id subject body : string) : Email.t :=
  {| Email.id := id;
     Email.message_id := "<" +:+ id +:+ "@mail.example.com>";
     Email.sender := "sender@example.com";
     Email.subject := subject;
     Email.body := body;
     Email.date := "2024-01-01T12:00:00+00:00" |}.

Definition mail_1 : Email.t := mail "1" "Meeting tomorrow at 10am" "See you there.".
Definition mail_2 : Email.t := mail "2" "Meeting tomorrow at 10 AM" "See you there.".
Definition mail_3 : Email.t := mail "3" "Meeting tomorrow, ten o'clock" "See you.".
Definition mail_4 : Email.t := mail "4" "Completely unrelated topic" "Nothing to see.".
Definition mail_1_again : Email.t := mail "1" "Meeting moved to 11am" "New time.".
Definition mail_5 : Email.t := mail "5" "Scanned attachment" "No text.".

(** Far-away mail, so that the store holds as many items as a query asks
    for. *)
Definition filler (n : nat) : Email.t :=
  mail (String (ascii_of_nat (97 + n)) EmptyString) "Newsletter" (String (ascii_of_nat (97 + n)) EmptyString).

Definition fillers : list Email.t := filler <$> seq 0 6.

(** [mail_1] and [mail_3] are both close to [mail_2] and far from each
    other; [mail_1_again] and [mail_5] have no encoding. *)
Definition sample_encoder : string → result (list Q) :=
  table_encoder
    ([(embedding_text mail_1, [0%Q]);
      (embedding_text mail_2, [1 # 2]);
      (embedding_text mail_3, [1%Q]);
      (embedding_text mail_4, [5%Q])]
     ++ imap (λ i e, (embedding_text e, [inject_Z (10 * (Z.of_nat i + 1))])) fillers).

(** An encoder that also knows the text of [mail_1_again]. *)
Definition full_encoder : string → result (list Q) :=
  λ text, if decide (text = embedding_text mail_1_again) then Ok [3%Q]
          else sample_encoder text.

Definition empty_client : Chroma.Client :=
  {| Chroma.collections := ∅; Chroma.reject_duplicate_ids := false |}.

(** A client of a release that rejects an id that is already stored. *)
Definition strict_client : Chroma.Client :=
  {| Chroma.collections := ∅; Chroma.reject_duplicate_ids := true |}.

Definition sample_store : RAGService :=
  foldl (add_email sample_encoder) (init empty_client)
        ([mail_1; mail_2; mail_3; mail_4] ++ fillers).

(** The calls that build [sample_store]. *)
Definition sample_ops : list op :=
  AddEmail <$> [mail_1; mail_2; mail_3; mail_4] ++ fillers.

Definition long_subject_mail : Email.t :=
  mail "long" (string_of_list_ascii (replicate 3000 "a"%char)) "b".

Definition sample_threshold : Q := 85 # 100.

Definition sample_batch : list Email.t := [mail_1; mail_2; mail_3; mail_4].

Definition sample_group_1 : DuplicateEmailGroup.t :=
  {| DuplicateEmailGroup.primary_email_id := "1";
     DuplicateEmailGroup.duplicate_ids := ["2"];
     DuplicateEmailGroup.similarity_scores := [7 # 8];
     DuplicateEmailGroup.subject := "Meeting tomorrow at 10am";
     DuplicateEmailGroup.count := 2 |}.

Definition sample_group_3 : DuplicateEmailGroup.t :=
  {| DuplicateEmailGroup.primary_email_id := "3";
     DuplicateEmailGroup.duplicate_ids := ["2"];
     DuplicateEmailGroup.similarity_scores := [7 # 8];
     DuplicateEmailGroup.subject := "Meeting tomorrow, ten o'clock";
     DuplicateEmailGroup.count := 2 |}.

(** ** The caller in [my_agent/agent.py] *)

(** The values of the dictionaries the agent hands out; a [dict] keeps the
    order in which its keys were written. *)
#[local] Set Warnings "-register-all".
Inductive pyval : Type :=
  | PyStr (s : string)
  | PyInt (n : Z)
  | PyFloat (q : Q)
  | PyList (l : list pyval)
  | PyDict (items : list (string * pyval)).

(** [d[key]] read without failure: the first item under the key. *)
Definition dict_get (d : pyval) (key : string) : option pyval :=
  match d with
  | PyDict items => snd <$> (snd <$> list_find (λ kv, kv.1 = key) items)
  | _ => None
  end.

(** [g.dict()] of a [DuplicateEmailGroup]. *)
Definition group_dict (g : DuplicateEmailGroup.t) : pyval :=
  PyDict
    [("primary_email_id", PyStr (DuplicateEmailGroup.primary_email_id g));
     ("duplicate_ids", PyList (PyStr <$> DuplicateEmailGroup.duplicate_ids g));
     ("similarity_scores",
      PyList (PyFloat <$> DuplicateEmailGroup.similarity_scores g));
     ("subject", PyStr (DuplicateEmailGroup.subject g));
     ("count", PyInt (Z.of_nat (DuplicateEmailGroup.count g)))].

(** [EmailAgent.check_duplicates]; [str] is the text of an exception and
    [duplicate_similarity_threshold] the setting of that name. *)
Definition check_duplicates (encode : string → result (list Q))
    (str : exn → string) (rag_service : RAGService)
    (duplicate_similarity_threshold : Q) (emails : list Email.t) : pyval :=
  try_except
    (let groups :=
       detect_duplicates encode rag_service emails
         duplicate_similarity_threshold in
     Ok (PyDict
           [("status", PyStr "success");
            ("total_emails", PyInt (Z.of_nat (length emails)));
            ("duplicate_groups", PyInt (Z.of_nat (length groups)));
            ("groups", PyList (group_dict <$> groups))]))
    (λ e, PyDict [("status", PyStr "error"); ("message", PyStr (str e))]).

(** ** Vocabulary of the further statements *)

(** The pairs the store answers a lookup with, nearest first; none when the
    encoder or the store fails. *)
Definition candidates (encode : string → result (list Q))
    (self : RAGService) (email : Email.t) (limit : Z) : list (string * Q) :=
  match encode (embedding_text email) with
  | Ok v =>
      match Chroma.collections (client self) !! collection self with
      | Some cd =>
          if Chroma.dimension_ok cd v then Chroma.nearest cd v limit else []
      | None => []
      end
  | Raise _ => []
  end.

(** Among (id, distance) pairs, those of another id whose similarity
    reaches the threshold, each with its similarity. *)
Definition above_threshold (self_id : string) (threshold : Q)
    (pairs : list (string * Q)) : list (string * Q) :=
  filter (λ p, p.1 ≠ self_id ∧ Qle_bool threshold p.2 = true)
         ((λ p, (p.1, similarity_of p.2)) <$> pairs).

(** Scores that never increase along a list of matches. *)
Definition best_first (matches : list (string * Q)) : Prop :=
  StronglySorted (λ p q, (q.2 <= p.2)%Q) matches.

(** ** Facts about the error monad *)

Lemma getitem_Ok {A} (l : list A) i x : getitem l i = Ok x ↔ l !! i = Some x.
Proof. unfold getitem. destruct (l !! i); split; congruence. Qed.

Lemma bind_Ok {A B} (m : result A) (f : A → result B) b :
  m ≫= f = Ok b ↔ ∃ a, m = Ok a ∧ f a = Ok b.
Proof.
  destruct m as [a|e]; simpl.
  - split; [eauto|]. by intros (a' & [= ->] & ?).
  - split; [done|]. by intros (? & ? & ?).
Qed.

(** ** Facts about the vector store *)

Module ChromaFacts.
Import Chroma.

Lemma square_nonneg (x : Q) : (0 <= x * x)%Q.
Proof.
  unfold Qle, Qmult. simpl. rewrite Z.mul_1_r. apply Z.square_nonneg.
Qed.

Lemma l2_nonneg (u v : list Q) : (0 <= l2 u v)%Q.
Proof.
  unfold l2. revert v.
  induction u as [|a u IH]; intros [|b v]; simpl; try apply Qle_refl.
  apply (Qplus_le_compat 0 _ 0 _); [apply square_nonneg | apply IH].
Qed.

Lemma insert_nearest_perm x l : insert_nearest x l ≡ₚ x :: l.
Proof.
  induction l as [|y l IH]; simpl; [done|].
  destruct (Qle_bool x.2 y.2); [done|].
  rewrite IH. apply Permutation_swap.
Qed.

Lemma nearest_first_perm l : nearest_first l ≡ₚ l.
Proof.
  unfold nearest_first.
  induction l as [|x l IH]; simpl; [done|].
  by rewrite insert_nearest_perm, IH.
Qed.

Lemma scored_fst cd v : (scored cd v).*1 = (map_to_list (entries cd)).*1.
Proof.
  unfold scored. rewrite <- list_fmap_compose. by apply list_fmap_ext.
Qed.

Lemma elem_of_scored cd v id d :
  (id, d) ∈ scored cd v →
  ∃ entry, entries cd !! id = Some entry ∧ d = l2 v (embedding entry).
Proof.
  unfold scored. intros ([k en] & [= -> ->] & Hin)%list_elem_of_fmap.
  exists en. split; [|done]. by apply elem_of_map_to_list.
Qed.

Lemma nearest_NoDup cd v n : NoDup (nearest cd v n).*1.
Proof.
  unfold nearest. rewrite fmap_take.
  eapply sublist_NoDup; [|apply sublist_take].
  rewrite (nearest_first_perm (scored cd v)), scored_fst.
  apply NoDup_fst_map_to_list.
Qed.

Lemma elem_of_nearest cd v n id d :
  (id, d) ∈ nearest cd v n →
  ∃ entry, entries cd !! id = Some entry ∧ d = l2 v (embedding entry).
Proof.
  unfold nearest. intros Hin. apply (elem_of_scored cd v).
  rewrite <- (nearest_first_perm (scored cd v)).
  apply elem_of_take in Hin as (i & Hi & _).
  by eapply list_elem_of_lookup_2.
Qed.

Lemma query_Ok c handle v n r :
  query c handle v n = Ok r →
  ∃ cd, collections c !! handle = Some cd ∧
        dimension_ok cd v = true ∧
        r = {| ids := [(nearest cd v n).*1];
               distances := [(nearest cd v n).*2] |}.
Proof.
  unfold query. destruct (collections c !! handle) as [cd|]; [|done].
  case_bool_decide; [done|]. destruct (dimension_ok cd v) eqn:Hdim; [|done].
  intros [= <-]. exists cd. by split_and!.
Qed.

(** [add] on an id that is stored changes nothing, whether it skips the
    record or rejects it. *)
Lemma add_stored c handle id v doc md entry c' :
  get c handle id = Some entry →
  add c handle id v doc md = Ok c' → c' = c.
Proof.
  unfold get, add. destruct v as [|x v]; [done|].
  destruct (collections c !! handle) as [cd|]; simpl; [|done].
  intros ->. destruct (negb _); [done|].
  destruct (reject_duplicate_ids c); congruence.
Qed.

Lemma add_fresh c handle id v doc md c' :
  get c handle id = None →
  add c handle id v doc md = Ok c' →
  get c' handle id = Some (mkEntry v doc md).
Proof.
  unfold get, add, count. destruct v as [|x v]; [done|].
  destruct (collections c !! handle) as [cd|]; simpl; [|done].
  intros Hnone. destruct (negb _); [done|]. rewrite Hnone.
  intros [= <-]. simpl. rewrite lookup_insert_eq. simpl.
  by rewrite lookup_insert_eq.
Qed.

End ChromaFacts.

(** ** Facts about the scan of a query result *)

Lemma scan_results_spec results self_id threshold ids0 :
  ∀ i acc out,
    scan_results results self_id threshold i ids0 acc = Ok out →
    ∃ found,
      out = acc ++ found ∧ found.*1 `sublist_of` ids0 ∧
      ∀ id score, (id, score) ∈ found →
        id ≠ self_id ∧ Qle_bool threshold score = true ∧
        ∃ k row distance,
          ids0 !! k = Some id ∧
          Chroma.distances results !! 0%nat = Some row ∧
          row !! (i + k)%nat = Some distance ∧
          score = similarity_of distance.
Proof.
  induction ids0 as [|email_id rest IH]; intros i acc out Hscan; simpl in Hscan.
  - injection Hscan as <-. exists []. rewrite app_nil_r.
    split_and!; [done|constructor|].
    intros id score Hin. by apply not_elem_of_nil in Hin.
  - assert (Hshift : ∀ found : list (string * Q),
      (∀ id score, (id, score) ∈ found →
        id ≠ self_id ∧ Qle_bool threshold score = true ∧
        ∃ k row distance, rest !! k = Some id ∧
          Chroma.distances results !! 0%nat = Some row ∧
          row !! (S i + k)%nat = Some distance ∧ score = similarity_of distance) →
      ∀ id score, (id, score) ∈ found →
        id ≠ self_id ∧ Qle_bool threshold score = true ∧
        ∃ k row distance, (email_id :: rest) !! k = Some id ∧
          Chroma.distances results !! 0%nat = Some row ∧
          row !! (i + k)%nat = Some distance ∧ score = similarity_of distance).
    { intros found Hfound id score Hin.
      destruct (Hfound id score Hin) as (Hne & Hle & k & row & d & Hk & Hrow & Hd & Hs).
      split_and!; [done..|]. exists (S k), row, d.
      split_and!; [done..| |done].
      by replace (i + S k)%nat with (S i + k)%nat by lia. }
    destruct (decide (email_id = self_id)) as [->|Hne].
    + destruct (IH _ _ _ Hscan) as (found & -> & Hsub & Hfound).
      exists found. split_and!; [done|by apply sublist_cons|by apply Hshift].
    + apply bind_Ok in Hscan as (row & Hrow%getitem_Ok & Hscan).
      apply bind_Ok in Hscan as (distance & Hd%getitem_Ok & Hscan).
      destruct (Qle_bool threshold (similarity_of distance)) eqn:Hle.
      * destruct (IH _ _ _ Hscan) as (found & -> & Hsub & Hfound).
        exists ((email_id, similarity_of distance) :: found).
        split; [by rewrite <- app_assoc|]. split; [by apply sublist_skip|].
        intros id score [[= -> ->]|Hin]%elem_of_cons.
        -- split_and!; [done..|]. exists 0%nat, row, distance.
           by rewrite Nat.add_0_r.
        -- by apply (Hshift found).
      * destruct (IH _ _ _ Hscan) as (found & -> & Hsub & Hfound).
        exists found. split_and!; [done|by apply sublist_cons|by apply Hshift].
Qed.

(** ** Facts about [find_similar_emails] *)

Section ServiceFacts.

Variable encode : string → result (list Q).

Lemma find_similar_emails_body_inv self email threshold limit out :
  find_similar_emails_body encode self email threshold limit = Ok out →
  ∃ v cd,
    encode (embedding_text email) = Ok v ∧
    Chroma.collections (client self) !! collection self = Some cd ∧
    Chroma.dimension_ok cd v = true ∧
    out.*1 `sublist_of` (Chroma.nearest cd v limit).*1 ∧
    ∀ id score, (id, score) ∈ out →
      id ≠ Email.id email ∧ Qle_bool threshold score = true ∧
      ∃ distance, (id, distance) ∈ Chroma.nearest cd v limit ∧
                  score = similarity_of distance.
Proof.
  unfold find_similar_emails_body. intros Hbody.
  apply bind_Ok in Hbody as (v & Hv & Hbody).
  apply bind_Ok in Hbody as (results & Hq & Hbody).
  apply ChromaFacts.query_Ok in Hq as (cd & Hcd & Hdim & ->). simpl in Hbody.
  exists v, cd. split_and!; [done..| |].
  - destruct ((Chroma.nearest cd v limit).*1) as [|id0 ids0] eqn:Hids.
    + injection Hbody as <-. constructor.
    + apply scan_results_spec in Hbody as (found & -> & Hsub & _). done.
  - intros id score Hin.
    destruct ((Chroma.nearest cd v limit).*1) as [|id0 ids0] eqn:Hids.
    { injection Hbody as <-. by apply not_elem_of_nil in Hin. }
    apply scan_results_spec in Hbody as (found & -> & _ & Hfound).
    destruct (Hfound id score Hin)
      as (Hne & Hle & k & row & distance & Hk & Hrow & Hd & ->).
    split_and!; [done..|]. exists distance. split; [|done].
    simpl in Hrow. injection Hrow as <-.
    rewrite <- Hids, list_lookup_fmap in Hk.
    rewrite Nat.add_0_l, list_lookup_fmap in Hd.
    destruct (Chroma.nearest cd v limit !! k) as [[id' d']|] eqn:Hnk;
      simpl in *; [|done].
    injection Hk as ->. injection Hd as ->.
    by eapply list_elem_of_lookup_2.
Qed.

Lemma find_similar_emails_spec self email threshold limit id score :
  (id, score) ∈ find_similar_emails encode self email threshold limit →
  id ≠ Email.id email ∧ (threshold <= score)%Q ∧
  ∃ v entry,
    encode (embedding_text email) = Ok v ∧
    stored self id = Some entry ∧
    score = similarity_of (Chroma.l2 v (Chroma.embedding entry)).
Proof.
  unfold find_similar_emails, try_except.
  destruct (find_similar_emails_body _ _ _ _ _) as [out|e] eqn:Hbody;
    [|by intros ?%not_elem_of_nil].
  intros Hin.
  apply find_similar_emails_body_inv in Hbody
    as (v & cd & Hv & Hcd & _ & _ & Hout).
  destruct (Hout id score Hin) as (Hne & Hle%Qle_bool_iff & d & Hd & ->).
  apply ChromaFacts.elem_of_nearest in Hd as (entry & Hentry & ->).
  split_and!; [done..|]. exists v, entry. split_and!; [done| |done].
  unfold stored, Chroma.get. by rewrite Hcd.
Qed.

Lemma find_similar_emails_candidate self email threshold limit id score :
  (id, score) ∈ find_similar_emails encode self email threshold limit →
  ∃ distance,
    (id, distance) ∈ candidates encode self email limit ∧
    is_Some (stored self id) ∧
    (0 <= distance)%Q ∧
    score = similarity_of distance ∧
    (threshold <= score)%Q.
Proof.
  unfold find_similar_emails, try_except.
  destruct (find_similar_emails_body _ _ _ _ _) as [out|e] eqn:Hbody;
    [|by intros ?%not_elem_of_nil].
  intros Hin.
  apply find_similar_emails_body_inv in Hbody
    as (v & cd & Hv & Hcd & Hdim & _ & Hout).
  destruct (Hout id score Hin) as (_ & Hle%Qle_bool_iff & d & Hd & ->).
  exists d. unfold candidates. rewrite Hv, Hcd, Hdim.
  destruct (ChromaFacts.elem_of_nearest _ _ _ _ _ Hd) as (entry & Hentry & ->).
  split_and!; [done| |apply ChromaFacts.l2_nonneg|done..].
  exists entry. unfold stored, Chroma.get. by rewrite Hcd.
Qed.

Lemma find_similar_emails_NoDup self email threshold limit :
  NoDup (find_similar_emails encode self email threshold limit).*1.
Proof.
  unfold find_similar_emails, try_except.
  destruct (find_similar_emails_body _ _ _ _ _) as [out|e] eqn:Hbody;
    [|constructor].
  apply find_similar_emails_body_inv in Hbody
    as (v & cd & _ & _ & _ & Hsub & _).
  eapply sublist_NoDup; [|exact Hsub]. apply ChromaFacts.nearest_NoDup.
Qed.

Lemma find_similar_emails_not_self self email threshold limit :
  Email.id email ∉ (find_similar_emails encode self email threshold limit).*1.
Proof.
  intros ([id score] & Hid & Hin)%list_elem_of_fmap. simpl in Hid. subst id.
  by apply find_similar_emails_spec in Hin as (Hne & _).
Qed.

End ServiceFacts.

(** ** Facts about the grouping loop *)

Section GroupingFacts.

Variable encode : string → result (list Q).
Variable self : RAGService.
Variable threshold : Q.

Lemma all_group_ids_cons g groups :
  all_group_ids (g :: groups) = group_ids g ++ all_group_ids groups.
Proof. reflexivity. Qed.

Lemma group_ids_in_all g groups id :
  g ∈ groups → id ∈ group_ids g → id ∈ all_group_ids groups.
Proof.
  intros Hg Hid. unfold all_group_ids. apply list_elem_of_bind. eauto.
Qed.

(** The groups found so far are only ever extended at the end. *)
Lemma detect_loop_app emails :
  ∀ groups processed,
    detect_loop encode self threshold emails groups processed =
    groups ++ detect_loop encode self threshold emails [] processed.
Proof.
  induction emails as [|email rest IH]; intros groups processed; simpl.
  - by rewrite app_nil_r.
  - destruct (decide (Email.id email ∈ processed)); [apply IH|].
    destruct (find_similar_emails encode self email threshold 10) as [|p similar];
      [apply IH|].
    rewrite IH. rewrite (IH [_]). by rewrite <- app_assoc.
Qed.

(** Every group comes from an email of the batch that was not yet
    processed and whose lookup found something. *)
Lemma detect_loop_group emails :
  ∀ processed g,
    g ∈ detect_loop encode self threshold emails [] processed →
    ∃ email,
      email ∈ emails ∧
      find_similar_emails encode self email threshold 10 ≠ [] ∧
      g = {| DuplicateEmailGroup.primary_email_id := Email.id email;
             DuplicateEmailGroup.duplicate_ids :=
               (find_similar_emails encode self email threshold 10).*1;
             DuplicateEmailGroup.similarity_scores :=
               (find_similar_emails encode self email threshold 10).*2;
             DuplicateEmailGroup.subject := Email.subject email;
             DuplicateEmailGroup.count :=
               length (find_similar_emails encode self email threshold 10).*1 + 1 |}.
Proof.
  induction emails as [|email rest IH]; intros processed g; simpl.
  - by intros ?%not_elem_of_nil.
  - assert (Hrest : ∀ processed',
      g ∈ detect_loop encode self threshold rest [] processed' →
      ∃ email', email' ∈ email :: rest ∧
        find_similar_emails encode self email' threshold 10 ≠ [] ∧
        g = {| DuplicateEmailGroup.primary_email_id := Email.id email';
               DuplicateEmailGroup.duplicate_ids :=
                 (find_similar_emails encode self email' threshold 10).*1;
               DuplicateEmailGroup.similarity_scores :=
                 (find_similar_emails encode self email' threshold 10).*2;
               DuplicateEmailGroup.subject := Email.subject email';
               DuplicateEmailGroup.count :=
                 length (find_similar_emails encode self email' threshold 10).*1 + 1 |}).
    { intros processed' Hin. destruct (IH _ _ Hin) as (email' & Hin' & Hrest).
      exists email'. split; [by apply list_elem_of_further|done]. }
    destruct (decide (Email.id email ∈ processed)); [apply Hrest|].
    destruct (find_similar_emails encode self email threshold 10)
      as [|p similar] eqn:Hsimilar; [apply Hrest|].
    rewrite detect_loop_app.
    intros Hin. apply elem_of_app in Hin as [Hin|Hin]; [|by eapply Hrest].
    apply list_elem_of_singleton in Hin as ->.
    exists email. rewrite Hsimilar. split_and!; [apply list_elem_of_here|done..].
Qed.

(** The primary of a group is an id that no earlier group has placed. *)
Lemma detect_loop_fresh emails :
  ∀ processed earlier g later,
    detect_loop encode self threshold emails [] processed = earlier ++ g :: later →
    (DuplicateEmailGroup.primary_email_id g ∉ processed) ∧
    (DuplicateEmailGroup.primary_email_id g ∉ all_group_ids earlier).
Proof.
  induction emails as [|email rest IH]; intros processed earlier g later; simpl.
  - intros Hnil. by destruct earlier.
  - destruct (decide (Email.id email ∈ processed)) as [|Hfresh]; [apply IH|].
    destruct (find_similar_emails encode self email threshold 10)
      as [|p similar] eqn:Hsimilar; [apply IH|].
    rewrite detect_loop_app.
    destruct earlier as [|g0 earlier]; intros Heq.
    + injection Heq as <- _. split; [done|]. apply not_elem_of_nil.
    + injection Heq as <- Hrest.
      apply IH in Hrest as [Hprocessed Hearlier].
      apply not_elem_of_union in Hprocessed as [Hprocessed Hmembers].
      apply not_elem_of_union in Hprocessed as [Hprocessed Hprimary].
      rewrite elem_of_singleton in Hprimary.
      change (DuplicateEmailGroup.primary_email_id g
                ∉ list_to_set (C := gset string) (p :: similar).*1) in Hmembers.
      rewrite elem_of_list_to_set in Hmembers.
      split; [done|].
      rewrite all_group_ids_cons. unfold group_ids at 1.
      rewrite not_elem_of_app, not_elem_of_cons. done.
Qed.

End GroupingFacts.

(** ** Sample runs *)

Example sample_store_count : get_email_count sample_store = 10%nat.
Proof. vm_compute. reflexivity. Qed.

Example sample_detect_duplicates :
  detect_duplicates sample_encoder sample_store sample_batch sample_threshold
  = [sample_group_1; sample_group_3].
Proof. vm_compute. reflexivity. Qed.

Example sample_find_similar_emails :
  find_similar_emails sample_encoder sample_store mail_1 sample_threshold 10
  = [("2", 7 # 8)].
Proof. vm_compute. reflexivity. Qed.

(** ** Cluster exclusivity (C1, C9) *)

(** C1, as stated, does not hold: in the sample store, mail 2 is within the
    threshold of both mail 1 and mail 3, which are far from each other; the
    batch yields the groups (1, [2]) and (3, [2]), so the id 2 is placed
    twice. *)
Lemma cluster_exclusivity_fails :
  ¬ cluster_exclusive
      (detect_duplicates sample_encoder sample_store sample_batch sample_threshold).
Proof.
  rewrite sample_detect_duplicates. unfold cluster_exclusive.
  change (¬ NoDup ["1"; "2"; "3"; "2"]).
  intros Hnodup. apply NoDup_cons_1_2, NoDup_cons_1_1 in Hnodup.
  apply Hnodup. apply list_elem_of_further, list_elem_of_here.
Qed.

Section Exclusivity.

Variable encode : string → result (list Q).
Variable self : RAGService.
Variable emails : list Email.t.
Variable threshold : Q.

Lemma detect_duplicates_unfold :
  detect_duplicates encode self emails threshold =
  detect_loop encode self threshold emails [] ∅.
Proof. reflexivity. Qed.

Lemma later_primary_not_in_earlier_group i j gi gj :
  detect_duplicates encode self emails threshold !! i = Some gi →
  detect_duplicates encode self emails threshold !! j = Some gj →
  (i < j)%nat →
  DuplicateEmailGroup.primary_email_id gj ∉ group_ids gi.
Proof.
  intros Hi Hj Hlt Hin.
  pose proof (take_drop_middle _ _ _ Hj) as Hsplit.
  rewrite detect_duplicates_unfold in Hsplit. symmetry in Hsplit.
  apply detect_loop_fresh in Hsplit as [_ Hfresh]. apply Hfresh.
  apply (group_ids_in_all gi); [|done].
  apply list_elem_of_lookup_2 with i. by rewrite lookup_take_lt.
Qed.

(** C1 (amended). Within one call of [detect_duplicates]: no id is the
    primary of two groups; inside each group the primary and the members
    are pairwise distinct; and an id placed in a group, as primary or as
    member, is never the primary of a later group.  (An id may still be a
    member of several groups.) *)
Theorem detect_duplicates_primaries_exclusive :
  NoDup (DuplicateEmailGroup.primary_email_id
           <$> detect_duplicates encode self emails threshold) ∧
  Forall (λ g, NoDup (group_ids g))
         (detect_duplicates encode self emails threshold) ∧
  ∀ i j gi gj,
    detect_duplicates encode self emails threshold !! i = Some gi →
    detect_duplicates encode self emails threshold !! j = Some gj →
    (i < j)%nat →
    DuplicateEmailGroup.primary_email_id gj ∉ group_ids gi.
Proof.
  split_and!.
  - apply NoDup_alt. intros i j id Hi Hj.
    rewrite list_lookup_fmap in Hi, Hj.
    destruct (detect_duplicates encode self emails threshold !! i)
      as [gi|] eqn:Hgi; [|done].
    destruct (detect_duplicates encode self emails threshold !! j)
      as [gj|] eqn:Hgj; [|done].
    injection Hi as Hi. injection Hj as Hj.
    destruct (Nat.lt_trichotomy i j) as [Hlt|[Heq|Hlt]]; [|done|].
    + exfalso. apply (later_primary_not_in_earlier_group _ _ _ _ Hgi Hgj Hlt).
      rewrite Hj, <- Hi. apply list_elem_of_here.
    + exfalso. apply (later_primary_not_in_earlier_group _ _ _ _ Hgj Hgi Hlt).
      rewrite Hi, <- Hj. apply list_elem_of_here.
  - apply Forall_forall. intros g Hg. rewrite detect_duplicates_unfold in Hg.
    apply detect_loop_group in Hg as (email & _ & _ & ->).
    unfold group_ids. simpl. apply NoDup_cons. split.
    + apply find_similar_emails_not_self.
    + apply find_similar_emails_NoDup.
  - apply later_primary_not_in_earlier_group.
Qed.

(** C9. The primary of a returned group is the primary of no other
    returned group, and occurs neither as primary nor as member in any
    group emitted before it in the same call. *)
Theorem detect_duplicates_primary_fresh earlier G later :
  detect_duplicates encode self emails threshold = earlier ++ G :: later →
  (DuplicateEmailGroup.primary_email_id G ∉ all_group_ids earlier) ∧
  ∀ G', G' ∈ earlier ++ later →
        DuplicateEmailGroup.primary_email_id G'
        ≠ DuplicateEmailGroup.primary_email_id G.
Proof.
  intros Hsplit. rewrite detect_duplicates_unfold in Hsplit.
  pose proof (detect_loop_fresh _ _ _ _ _ _ _ _ Hsplit) as [_ Hfresh].
  split; [done|]. intros G' HG' Heq.
  apply elem_of_app in HG' as [HG'|HG'].
  - apply Hfresh. rewrite <- Heq.
    apply (group_ids_in_all G'); [done|apply list_elem_of_here].
  - apply list_elem_of_split in HG' as (l1 & l2 & ->).
    assert (Hassoc : earlier ++ G :: l1 ++ G' :: l2
                     = (earlier ++ G :: l1) ++ G' :: l2)
      by (by rewrite <- app_assoc).
    rewrite Hassoc in Hsplit.
    apply detect_loop_fresh in Hsplit as [_ Hfresh']. apply Hfresh'.
    rewrite Heq. apply (group_ids_in_all G); [|apply list_elem_of_here].
    apply elem_of_app. right. apply list_elem_of_here.
Qed.

End Exclusivity.

Lemma detect_duplicates_primary_fresh_witness :
  (DuplicateEmailGroup.primary_email_id sample_group_3
     ∉ all_group_ids [sample_group_1]) ∧
  ∀ G', G' ∈ [sample_group_1] ++ [] →
        DuplicateEmailGroup.primary_email_id G'
        ≠ DuplicateEmailGroup.primary_email_id sample_group_3.
Proof.
  apply (detect_duplicates_primary_fresh sample_encoder sample_store
           sample_batch sample_threshold [sample_group_1] sample_group_3 []).
  vm_compute. reflexivity.
Defined.

(** ** Shape of the groups (C7, C10) *)

Section GroupShape.

Variable encode : string → result (list Q).
Variable self : RAGService.
Variable emails : list Email.t.
Variable threshold : Q.

(** C7. In every returned group the scores are as many as the members
    and stand in the same order: members and scores are the two columns
    of what [find_similar_emails] returned for the primary; and a group
    has at least one member. *)
Theorem detect_duplicates_scores_parallel g :
  g ∈ detect_duplicates encode self emails threshold →
  length (DuplicateEmailGroup.duplicate_ids g)
    = length (DuplicateEmailGroup.similarity_scores g) ∧
  DuplicateEmailGroup.duplicate_ids g ≠ [] ∧
  ∃ email,
    email ∈ emails ∧
    Email.id email = DuplicateEmailGroup.primary_email_id g ∧
    zip (DuplicateEmailGroup.duplicate_ids g)
        (DuplicateEmailGroup.similarity_scores g)
      = find_similar_emails encode self email threshold 10.
Proof.
  rewrite detect_duplicates_unfold.
  intros (email & Hin & Hsimilar & ->)%detect_loop_group. simpl.
  split_and!.
  - by rewrite !length_fmap.
  - by destruct (find_similar_emails encode self email threshold 10).
  - exists email. split_and!; [done..|]. apply zip_fst_snd.
Qed.

(** C10. The [count] of every returned group is the number of its
    members plus one. *)
Theorem detect_duplicates_count g :
  g ∈ detect_duplicates encode self emails threshold →
  DuplicateEmailGroup.count g
    = (length (DuplicateEmailGroup.duplicate_ids g) + 1)%nat.
Proof.
  rewrite detect_duplicates_unfold.
  by intros (email & _ & _ & ->)%detect_loop_group.
Qed.

End GroupShape.

Lemma detect_duplicates_scores_parallel_witness :
  length (DuplicateEmailGroup.duplicate_ids sample_group_3)
    = length (DuplicateEmailGroup.similarity_scores sample_group_3) ∧
  DuplicateEmailGroup.duplicate_ids sample_group_3 ≠ [] ∧
  ∃ email,
    email ∈ sample_batch ∧
    Email.id email = DuplicateEmailGroup.primary_email_id sample_group_3 ∧
    zip (DuplicateEmailGroup.duplicate_ids sample_group_3)
        (DuplicateEmailGroup.similarity_scores sample_group_3)
      = find_similar_emails sample_encoder sample_store email sample_threshold 10.
Proof.
  apply (detect_duplicates_scores_parallel sample_encoder sample_store
           sample_batch sample_threshold sample_group_3).
  vm_compute. apply list_elem_of_further, list_elem_of_here.
Defined.

Lemma detect_duplicates_count_witness :
  DuplicateEmailGroup.count sample_group_1
    = (length (DuplicateEmailGroup.duplicate_ids sample_group_1) + 1)%nat.
Proof.
  apply (detect_duplicates_count sample_encoder sample_store
           sample_batch sample_threshold sample_group_1).
  vm_compute. apply list_elem_of_here.
Defined.

(** ** Similarity search (C4, C5) *)

Section Search.

Variable encode : string → result (list Q).
Variable self : RAGService.
Variable email : Email.t.
Variable threshold : Q.
Variable limit : Z.

(** C5. Whatever the store holds, the email itself included, no pair
    returned by [find_similar_emails] carries the id of the email that
    was looked up. *)
Theorem find_similar_emails_excludes_self score :
  (Email.id email, score)
    ∉ find_similar_emails encode self email threshold limit.
Proof.
  intros Hin. by apply find_similar_emails_spec in Hin as (Hne & _).
Qed.

(** C4 (amended). For a threshold in [0, 1], every returned pair
    (id, score) has its score computed as 1 - distance/2 from the distance
    the store reports for that id, a distance that is not negative; the
    score is at least the threshold and lies in [0, 1]; and a reported
    distance of 0 gives the score 1.  (That a score of 1 is only reached at
    distance 0 is left out: rounding breaks it.) *)
Theorem find_similar_emails_score id score :
  (0 <= threshold)%Q → (threshold <= 1)%Q →
  (id, score) ∈ find_similar_emails encode self email threshold limit →
  ∃ distance,
    (id, distance) ∈ candidates encode self email limit ∧
    is_Some (stored self id) ∧
    (0 <= distance)%Q ∧
    score = (1 - distance / 2)%Q ∧
    (threshold <= score)%Q ∧ (0 <= score)%Q ∧ (score <= 1)%Q ∧
    (distance == 0 → score == 1)%Q.
Proof.
  intros Hlo Hhi Hin.
  apply find_similar_emails_candidate in Hin
    as (d & Hcandidate & Hstored & Hd & -> & Hle).
  exists d. unfold similarity_of in *.
  assert (Hhalf : (d / 2 == d * (1 # 2))%Q) by reflexivity.
  split_and!; [done..| | |].
  - rewrite Hhalf in *. lra.
  - rewrite Hhalf in *. lra.
  - intros Hzero. rewrite Hhalf, Hzero. reflexivity.
Qed.

End Search.

Lemma find_similar_emails_score_witness :
  ∃ distance,
    ("3", distance) ∈ candidates sample_encoder sample_store mail_2 10 ∧
    is_Some (stored sample_store "3") ∧
    (0 <= distance)%Q ∧
    (7 # 8 = 1 - distance / 2)%Q ∧
    (sample_threshold <= 7 # 8)%Q ∧ (0 <= 7 # 8)%Q ∧ (7 # 8 <= 1)%Q ∧
    (distance == 0 → 7 # 8 == 1)%Q.
Proof.
  apply (find_similar_emails_score sample_encoder sample_store mail_2
           sample_threshold 10 "3" (7 # 8)).
  - vm_compute. discriminate.
  - vm_compute. discriminate.
  - vm_compute. apply list_elem_of_here.
Defined.

Example keeps_binary64_rounds_to_one :
  keeps_binary64 0x1.b333333333333p-1 0x1p-60 = Some 1%float ∧
  (0x1p-60 =? 0)%float = false.
Proof. split; vm_compute; reflexivity. Qed.

(** C4, as stated, does not hold where it reads a score of 1.0 as
    identical: at the threshold 0.85, lines 114-118 give an answer at the
    distance 2^-60, which is not 0, the score 1 - 2^-61, and binary64
    rounds that to exactly 1.0. *)
Lemma score_one_without_identity :
  ¬ one_means_identical 0x1.b333333333333p-1 0x1p-60.
Proof.
  intros Hclaim. specialize (Hclaim 1%float). vm_compute in Hclaim.
  specialize (Hclaim eq_refl eq_refl). discriminate Hclaim.
Qed.

(** ** Clearing the store (C8) *)

Section Clearing.

Variable encode : string → result (list Q).

Lemma init_collection c : collection (init c) = collection_name.
Proof.
  unfold init, Chroma.get_or_create_collection.
  by destruct (Chroma.collections c !! collection_name).
Qed.

Lemma add_email_collection self email :
  collection (add_email encode self email) = collection self.
Proof.
  unfold add_email, add_email_body, try_except.
  destruct (encode (embedding_text email)) as [v|]; simpl; [|done].
  by destruct (Chroma.add _ _ _ _ _ _).
Qed.

Lemma clear_store_collection self :
  collection self = collection_name →
  collection (clear_store self) = collection_name.
Proof.
  intros Hname. unfold clear_store, Chroma.delete_collection.
  destruct (Chroma.collections (client self) !! collection_name); [|done].
  unfold Chroma.create_collection. simpl. by rewrite lookup_delete_eq.
Qed.

(** The handle the service holds always names its one collection. *)
Lemma run_collection c ops :
  collection (foldl (apply_op encode) (init c) ops) = collection_name.
Proof.
  induction ops as [|o ops IH] using rev_ind; simpl.
  - apply init_collection.
  - rewrite foldl_app. simpl. destruct o as [email|]; simpl.
    + by rewrite add_email_collection.
    + by apply clear_store_collection.
Qed.

(** The collection of a running service exists and is the one its handle
    names. *)
Lemma run_collection_exists c ops :
  collection (foldl (apply_op encode) (init c) ops) = collection_name ∧
  is_Some (Chroma.collections (client (foldl (apply_op encode) (init c) ops))
             !! collection_name).
Proof.
  split; [apply run_collection|].
  induction ops as [|o ops IH] using rev_ind.
  - simpl. unfold init, Chroma.get_or_create_collection.
    destruct (Chroma.collections c !! collection_name) as [cd|] eqn:Hcd; simpl.
    + by rewrite Hcd.
    + by rewrite lookup_insert_eq.
  - rewrite foldl_app. simpl.
    pose proof (run_collection c ops) as Hname.
    set (st := foldl (apply_op encode) (init c) ops) in *.
    destruct o as [email|]; simpl.
    + unfold add_email, add_email_body, try_except.
      destruct (encode (embedding_text email)) as [v|]; simpl; [|done].
      unfold Chroma.add. destruct v as [|x v]; [done|]. rewrite Hname.
      destruct IH as [cd Hcd]. rewrite Hcd.
      destruct (Chroma.dimension_ok cd (x :: v)); simpl; [|by rewrite Hcd].
      destruct (Chroma.entries cd !! Email.id email).
      * destruct (Chroma.reject_duplicate_ids (client st)); simpl;
          by rewrite Hcd.
      * simpl. by rewrite lookup_insert_eq.
    + unfold clear_store, Chroma.delete_collection, Chroma.create_collection.
      destruct IH as [cd Hcd]. rewrite Hcd. simpl.
      rewrite lookup_delete_eq. simpl. by rewrite lookup_insert_eq.
Qed.

Lemma clear_store_count self :
  collection self = collection_name →
  get_email_count (clear_store self) = 0%nat.
Proof.
  intros Hname.
  unfold get_email_count, clear_store, Chroma.delete_collection.
  destruct (Chroma.collections (client self) !! collection_name) as [cd|] eqn:Hcd.
  - unfold Chroma.create_collection. simpl. rewrite lookup_delete_eq.
    unfold Chroma.count. simpl. by rewrite lookup_insert_eq.
  - unfold Chroma.count. by rewrite Hname, Hcd.
Qed.

(** C8. Whatever the persistence directory held when the service started
    and whatever [add_email] and [clear_store] calls were made since:
    [get_email_count] is the number of entries the store counts, never the
    0 of its failure path; and after [clear_store] the store itself counts
    0 entries, [get_email_count] returns that 0, and nothing is stored
    under any id. *)
Theorem clear_store_then_count c ops :
  Chroma.count (client (foldl (apply_op encode) (init c) ops))
               (collection (foldl (apply_op encode) (init c) ops))
    = Ok (get_email_count (foldl (apply_op encode) (init c) ops)) ∧
  Chroma.count (client (clear_store (foldl (apply_op encode) (init c) ops)))
               (collection (clear_store (foldl (apply_op encode) (init c) ops)))
    = Ok 0%nat ∧
  get_email_count (clear_store (foldl (apply_op encode) (init c) ops)) = 0%nat ∧
  ∀ id, stored (clear_store (foldl (apply_op encode) (init c) ops)) id = None.
Proof.
  destruct (run_collection_exists c ops) as [Hname [cd Hcd]].
  set (st := foldl (apply_op encode) (init c) ops) in *.
  split.
  { unfold get_email_count, try_except, Chroma.count. by rewrite Hname, Hcd. }
  unfold stored, get_email_count, try_except, Chroma.get, Chroma.count,
    clear_store, Chroma.delete_collection, Chroma.create_collection.
  rewrite Hcd. simpl. rewrite lookup_delete_eq. simpl.
  rewrite !lookup_insert_eq. simpl. split_and!; [done..|].
  intros id. apply lookup_empty.
Qed.

End Clearing.

Lemma clear_store_then_count_witness :
  Chroma.count
    (client (foldl (apply_op sample_encoder) (init empty_client) sample_ops))
    (collection (foldl (apply_op sample_encoder) (init empty_client) sample_ops))
    = Ok (get_email_count
            (foldl (apply_op sample_encoder) (init empty_client) sample_ops)) ∧
  Chroma.count
    (client (clear_store
               (foldl (apply_op sample_encoder) (init empty_client) sample_ops)))
    (collection (clear_store
                   (foldl (apply_op sample_encoder) (init empty_client)
                      sample_ops)))
    = Ok 0%nat ∧
  get_email_count
    (clear_store
       (foldl (apply_op sample_encoder) (init empty_client) sample_ops))
    = 0%nat ∧
  ∀ id, stored (clear_store
                  (foldl (apply_op sample_encoder) (init empty_client)
                     sample_ops)) id = None.
Proof. exact (clear_store_then_count sample_encoder empty_client sample_ops). Defined.

Example sample_ops_build_sample_store :
  foldl (apply_op sample_encoder) (init empty_client) sample_ops = sample_store ∧
  get_email_count sample_store = 10%nat.
Proof. split; vm_compute; reflexivity. Qed.

Example sample_store_cleared :
  get_email_count sample_store = 10%nat ∧
  get_email_count (clear_store sample_store) = 0%nat.
Proof. split; vm_compute; reflexivity. Qed.

(** ** Adding an id twice (C2) *)

(** C2, as stated, does not hold: after [mail_1] has been added to an empty
    store, adding [mail_1_again] under the same id leaves the text of
    [mail_1] in place. *)
Lemma last_write_wins_fails :
  ¬ last_write_wins full_encoder (init empty_client) mail_1 mail_1_again.
Proof.
  unfold last_write_wins. intros (_ & Hdocument & _).
  vm_compute in Hdocument. discriminate Hdocument.
Qed.

Example strict_client_keeps_first_write :
  Chroma.document
    <$> stored (add_email full_encoder
                  (add_email full_encoder (init strict_client) mail_1)
                  mail_1_again) "1"
  = Some (embedding_text mail_1).
Proof. vm_compute. reflexivity. Qed.

Section AddTwice.

Variable encode : string → result (list Q).

Lemma add_email_stored self email entry :
  stored self (Email.id email) = Some entry →
  add_email encode self email = self.
Proof.
  unfold stored, add_email, add_email_body, try_except. intros Hstored.
  destruct (encode (embedding_text email)) as [v|]; simpl; [|done].
  destruct (Chroma.add _ _ _ _ _ _) as [c|] eqn:Hadd; simpl; [|done].
  apply (ChromaFacts.add_stored _ _ _ _ _ _ _ _ Hstored) in Hadd as ->.
  by destruct self.
Qed.

Lemma add_email_fresh self email entry :
  stored self (Email.id email) = None →
  stored (add_email encode self email) (Email.id email) = Some entry →
  ∃ v, encode (embedding_text email) = Ok v ∧
       entry = Chroma.mkEntry v (embedding_text email) (email_metadata email).
Proof.
  unfold stored, add_email, add_email_body, try_except. intros Hnone.
  destruct (encode (embedding_text email)) as [v|]; simpl; [|congruence].
  destruct (Chroma.add _ _ _ _ _ _) as [c|] eqn:Hadd; simpl; [|congruence].
  apply (ChromaFacts.add_fresh _ _ _ _ _ _ _ Hnone) in Hadd.
  intros Hentry. exists v. split; congruence.
Qed.

(** C2 (amended). Once an id is stored, a second [add_email] with the
    same id and another text leaves the store as the first call left it:
    [get_email_count] is unchanged and the text and metadata under the id
    stay those of the first write (those of the first call when the id
    was new to it); no uniqueness error reaches the caller. *)
Theorem add_email_first_write_wins self first second entry :
  Email.id first = Email.id second →
  stored (add_email encode self first) (Email.id first) = Some entry →
  add_email encode (add_email encode self first) second
    = add_email encode self first ∧
  get_email_count (add_email encode (add_email encode self first) second)
    = get_email_count (add_email encode self first) ∧
  stored (add_email encode (add_email encode self first) second)
         (Email.id second) = Some entry ∧
  (stored self (Email.id first) = None →
   Chroma.document entry = embedding_text first ∧
   Chroma.metadata entry = email_metadata first).
Proof.
  intros Hid Hstored.
  assert (Hsame : add_email encode (add_email encode self first) second
                  = add_email encode self first).
  { apply add_email_stored with entry. by rewrite <- Hid. }
  rewrite Hsame, <- Hid. split_and!; [done..|].
  intros Hnone.
  by destruct (add_email_fresh _ _ _ Hnone Hstored) as (v & _ & ->).
Qed.

End AddTwice.

Lemma add_email_first_write_wins_witness :
  add_email full_encoder (add_email full_encoder (init empty_client) mail_1)
            mail_1_again
    = add_email full_encoder (init empty_client) mail_1 ∧
  get_email_count
    (add_email full_encoder (add_email full_encoder (init empty_client) mail_1)
               mail_1_again)
    = get_email_count (add_email full_encoder (init empty_client) mail_1) ∧
  stored (add_email full_encoder
            (add_email full_encoder (init empty_client) mail_1) mail_1_again)
         (Email.id mail_1_again)
    = Some (Chroma.mkEntry [0%Q] (embedding_text mail_1) (email_metadata mail_1)) ∧
  (stored (init empty_client) (Email.id mail_1) = None →
   Chroma.document
     (Chroma.mkEntry [0%Q] (embedding_text mail_1) (email_metadata mail_1))
     = embedding_text mail_1 ∧
   Chroma.metadata
     (Chroma.mkEntry [0%Q] (embedding_text mail_1) (email_metadata mail_1))
     = email_metadata mail_1).
Proof.
  apply (add_email_first_write_wins full_encoder (init empty_client)
           mail_1 mail_1_again).
  - reflexivity.
  - vm_compute. reflexivity.
Defined.

(** ** Failures (C3) *)

(** C3, as stated, does not hold for [detect_duplicates]: the encoder fails
    on the text of [mail_5], an operation inside the call has failed, and
    the call still returns the group found for [mail_1]. *)
Lemma failure_empties_batch_fails :
  ¬ failure_empties_batch sample_encoder sample_store [mail_5; mail_1]
      sample_threshold.
Proof.
  unfold failure_empties_batch. intros Hclaim.
  assert (Hgroups : detect_duplicates sample_encoder sample_store
                      [mail_5; mail_1] sample_threshold = [sample_group_1])
    by (vm_compute; reflexivity).
  rewrite Hgroups in Hclaim. discriminate Hclaim.
  exists mail_5. split; [apply list_elem_of_here|]. vm_compute. reflexivity.
Qed.

Example sample_encoder_fails :
  sample_encoder (embedding_text mail_5) = Raise EncodeError.
Proof. vm_compute. reflexivity. Qed.

Section Failures.

Variable encode : string → result (list Q).
Variable self : RAGService.
Variable threshold : Q.

Lemma lookup_fails_no_match email :
  lookup_succeeds encode self threshold email = false →
  find_similar_emails encode self email threshold 10 = [].
Proof.
  unfold lookup_succeeds, find_similar_emails, try_except.
  by destruct (find_similar_emails_body _ _ _ _ _).
Qed.

Lemma encode_fails_lookup_fails email x :
  encode (embedding_text email) = Raise x →
  lookup_succeeds encode self threshold email = false.
Proof.
  unfold lookup_succeeds, find_similar_emails_body. by intros ->.
Qed.

Lemma query_fails_lookup_fails email v x :
  encode (embedding_text email) = Ok v →
  Chroma.query (client self) (collection self) v 10 = Raise x →
  lookup_succeeds encode self threshold email = false.
Proof.
  unfold lookup_succeeds, find_similar_emails_body. intros -> Hq. simpl.
  by rewrite Hq.
Qed.

(** An email whose lookup fails passes through the loop like an email
    without matches. *)
Lemma detect_loop_skips_failures emails :
  ∀ groups processed,
    detect_loop encode self threshold emails groups processed =
    detect_loop encode self threshold
      (filter (λ e, lookup_succeeds encode self threshold e = true) emails)
      groups processed.
Proof.
  induction emails as [|email rest IH]; intros groups processed; [done|].
  rewrite filter_cons.
  destruct (decide (lookup_succeeds encode self threshold email = true))
    as [Hok|Hfail]; simpl.
  - destruct (decide (Email.id email ∈ processed)); [apply IH|].
    destruct (find_similar_emails encode self email threshold 10); apply IH.
  - apply not_true_is_false in Hfail. rewrite (lookup_fails_no_match _ Hfail).
    destruct (decide (Email.id email ∈ processed)); apply IH.
Qed.

(** C3 (amended). A failure of the encoder or of the store inside
    [add_email] leaves the service as it was; inside
    [find_similar_emails] it gives the empty list; [detect_duplicates]
    treats an email whose lookup fails as an email without matches: it
    returns the groups of the other emails, and the empty list when every
    lookup fails.  All three return a value in every case. *)
Theorem failures_are_swallowed email emails limit :
  (∀ x, encode (embedding_text email) = Raise x →
        add_email encode self email = self ∧
        find_similar_emails encode self email threshold limit = []) ∧
  (∀ v x, encode (embedding_text email) = Ok v →
          Chroma.add (client self) (collection self) (Email.id email) v
                     (embedding_text email) (email_metadata email) = Raise x →
          add_email encode self email = self) ∧
  (∀ v x, encode (embedding_text email) = Ok v →
          Chroma.query (client self) (collection self) v limit = Raise x →
          find_similar_emails encode self email threshold limit = []) ∧
  detect_duplicates encode self emails threshold
    = detect_duplicates encode self
        (filter (λ e, lookup_succeeds encode self threshold e = true) emails)
        threshold ∧
  ((∀ e, e ∈ emails → lookup_succeeds encode self threshold e = false) →
   detect_duplicates encode self emails threshold = []).
Proof.
  split_and!.
  - intros x Hx.
    unfold add_email, add_email_body, find_similar_emails,
      find_similar_emails_body, try_except.
    by rewrite Hx.
  - intros v x Hv Hadd. unfold add_email, add_email_body, try_except.
    rewrite Hv. simpl. by rewrite Hadd.
  - intros v x Hv Hq.
    unfold find_similar_emails, find_similar_emails_body, try_except.
    rewrite Hv. simpl. by rewrite Hq.
  - rewrite !detect_duplicates_unfold. apply detect_loop_skips_failures.
  - intros Hall. rewrite detect_duplicates_unfold, detect_loop_skips_failures.
    replace (filter _ emails) with (@nil Email.t); [done|].
    symmetry. induction emails as [|e rest IH]; [done|].
    rewrite filter_cons_False.
    + apply IH. intros e' He'. apply Hall. by apply list_elem_of_further.
    + rewrite (Hall e); [done|apply list_elem_of_here].
Qed.

End Failures.

(** ** The embedded text (C6) *)

Lemma substring_prefix (n : nat) :
  ∀ s, ∃ rest,
    s = substring 0 n s +:+ rest ∧
    String.length (substring 0 n s) = Nat.min n (String.length s).
Proof.
  induction n as [|n IH]; intros s.
  - exists s. by destruct s.
  - destruct s as [|c s].
    + by exists EmptyString.
    + destruct (IH s) as (rest & Hrest & Hlen). exists rest.
      simpl. split; [|by rewrite Hlen].
      change (String c s = String c (substring 0 n s +:+ rest)). by f_equal.
Qed.

Lemma substring_length_le (n : nat) (s : string) :
  (String.length (substring 0 n s) ≤ n)%nat.
Proof.
  destruct (substring_prefix n s) as (_ & _ & ->). apply Nat.le_min_l.
Qed.

(** C6, as stated, does not hold: the subject is never cut.  With a subject
    of 3000 characters the embedded text has 3003 characters, so it is the
    first 1000 characters of nothing. *)
Lemma embedded_text_not_truncated_concatenation :
  ¬ text_is_truncated_concatenation long_subject_mail.
Proof.
  intros [sep Htext]. apply (f_equal String.length) in Htext.
  pose proof (substring_length_le 1000
                (Email.subject long_subject_mail +:+ sep
                   +:+ Email.body long_subject_mail)) as Hle.
  rewrite <- Htext in Hle.
  assert (Hlen : String.length (embedding_text long_subject_mail) = 3003%nat)
    by (vm_compute; reflexivity).
  rewrite Hlen in Hle. clear -Hle. lia.
Qed.

Section EmbeddedText.

Variable encode : string → result (list Q).

(** C6 (amended). The text embedded for an email is its whole subject, a
    blank line, and the first 1000 characters of its body: only the body
    is cut.  [add_email] and [find_similar_emails] hand the encoder this
    one text and nothing else, and the text [add_email] stores is the
    text whose embedding it stores. *)
Theorem embedded_text_is_subject_and_truncated_body
    (encode' : string → result (list Q)) self email threshold limit :
  (∃ truncated rest,
     Email.body email = truncated +:+ rest ∧
     String.length truncated = Nat.min 1000 (String.length (Email.body email)) ∧
     embedding_text email
       = Email.subject email +:+ newline +:+ newline +:+ truncated) ∧
  (encode (embedding_text email) = encode' (embedding_text email) →
   add_email encode self email = add_email encode' self email ∧
   find_similar_emails encode self email threshold limit
     = find_similar_emails encode' self email threshold limit) ∧
  (∀ entry,
     stored self (Email.id email) = None →
     stored (add_email encode self email) (Email.id email) = Some entry →
     Chroma.document entry = embedding_text email ∧
     encode (embedding_text email) = Ok (Chroma.embedding entry)).
Proof.
  split_and!.
  - destruct (substring_prefix 1000 (Email.body email)) as (rest & Hrest & Hlen).
    by exists (substring 0 1000 (Email.body email)), rest.
  - intros Hsame.
    unfold add_email, add_email_body, find_similar_emails,
      find_similar_emails_body.
    by rewrite Hsame.
  - intros entry Hnone Hstored.
    by destruct (add_email_fresh _ _ _ _ Hnone Hstored) as (v & Hv & ->).
Qed.

End EmbeddedText.

(** * Further properties *)

(** ** What a lookup returns *)

Lemma above_threshold_nil self_id threshold :
  above_threshold self_id threshold [] = [].
Proof. reflexivity. Qed.

Lemma above_threshold_cons self_id threshold id distance pairs :
  above_threshold self_id threshold ((id, distance) :: pairs) =
  if decide (id = self_id) then above_threshold self_id threshold pairs
  else if Qle_bool threshold (similarity_of distance)
       then (id, similarity_of distance)
              :: above_threshold self_id threshold pairs
       else above_threshold self_id threshold pairs.
Proof.
  unfold above_threshold. rewrite fmap_cons, filter_cons. simpl.
  destruct (decide (id = self_id)) as [->|Hne].
  - rewrite decide_False; [done|]. by intros [? _].
  - destruct (Qle_bool threshold (similarity_of distance)) eqn:Hle.
    + by rewrite decide_True.
    + rewrite decide_False; [done|]. intros [_ ?]. congruence.
Qed.

(** When the row of distances runs parallel to the ids, the scan never
    fails and keeps exactly the pairs above the threshold. *)
Lemma scan_results_aligned results self_id threshold row :
  Chroma.distances results !! 0%nat = Some row →
  ∀ pairs i acc,
    drop i row = pairs.*2 →
    scan_results results self_id threshold i (pairs.*1) acc
    = Ok (acc ++ above_threshold self_id threshold pairs).
Proof.
  intros Hrow. induction pairs as [|[id distance] pairs IH]; intros i acc Hdrop.
  - simpl. by rewrite above_threshold_nil, app_nil_r.
  - assert (Hi : row !! i = Some distance).
    { rewrite <- (Nat.add_0_r i), <- lookup_drop, Hdrop. done. }
    assert (Hnext : drop (S i) row = pairs.*2).
    { replace (S i) with (i + 1)%nat by lia.
      rewrite <- drop_drop, Hdrop. done. }
    rewrite above_threshold_cons. simpl.
    destruct (decide (id = self_id)) as [->|Hne]; [by apply IH|].
    unfold getitem. rewrite Hrow. simpl. rewrite Hi. simpl.
    destruct (Qle_bool threshold (similarity_of distance)); [|by apply IH].
    rewrite (IH _ _ Hnext). by rewrite <- app_assoc.
Qed.

Lemma sublist_filter_impl {A} (P1 P2 : A → Prop)
    `{!∀ x, Decision (P1 x)} `{!∀ x, Decision (P2 x)} (l : list A) :
  (∀ x, P1 x → P2 x) → filter P1 l `sublist_of` filter P2 l.
Proof.
  intros Himpl. induction l as [|x l IH]; [done|]. rewrite !filter_cons.
  destruct (decide (P1 x)) as [HP1|HP1].
  - rewrite decide_True by auto. by apply sublist_skip.
  - destruct (decide (P2 x)); [by apply sublist_cons|done].
Qed.

Lemma StronglySorted_sublist {A} (R : relation A) (l1 l2 : list A) :
  l1 `sublist_of` l2 → StronglySorted R l2 → StronglySorted R l1.
Proof.
  induction 1 as [|x l1 l2 Hsub IH|x l1 l2 Hsub IH]; intros Hsorted.
  - constructor.
  - apply StronglySorted_inv in Hsorted as [Hsorted Hall].
    constructor; [by apply IH|].
    eapply Forall_forall. intros y Hy.
    eapply Forall_forall in Hall; [exact Hall|].
    by eapply sublist_subseteq.
  - apply StronglySorted_inv in Hsorted as [Hsorted _]. by apply IH.
Qed.

Lemma insert_nearest_sorted x l :
  StronglySorted (λ p q, (p.2 <= q.2)%Q) l →
  StronglySorted (λ p q, (p.2 <= q.2)%Q) (Chroma.insert_nearest x l).
Proof.
  induction l as [|y l IH]; intros Hsorted; simpl.
  - repeat constructor.
  - apply StronglySorted_inv in Hsorted as [Hsorted Hall].
    destruct (Qle_bool x.2 y.2) eqn:Hle.
    + apply Qle_bool_iff in Hle.
      constructor; [by constructor|].
      constructor; [done|].
      eapply Forall_impl; [exact Hall|]. intros z Hz. simpl in *.
      by apply Qle_trans with y.2.
    + assert (Hyx : (y.2 <= x.2)%Q).
      { apply Qlt_le_weak, Qnot_le_lt. intros Hxy.
        apply Qle_bool_iff in Hxy. congruence. }
      constructor; [by apply IH|].
      rewrite (ChromaFacts.insert_nearest_perm x l). by constructor.
Qed.

Lemma nearest_sorted cd v n :
  StronglySorted (λ p q, (p.2 <= q.2)%Q) (Chroma.nearest cd v n).
Proof.
  unfold Chroma.nearest.
  apply (StronglySorted_sublist _ _ _ (sublist_take _ _)).
  unfold Chroma.nearest_first.
  induction (Chroma.scored cd v) as [|x l IH]; simpl; [constructor|].
  by apply insert_nearest_sorted.
Qed.

Lemma similarity_of_antitone (d1 d2 : Q) :
  (d1 <= d2)%Q → (similarity_of d2 <= similarity_of d1)%Q.
Proof.
  unfold similarity_of. intros Hle.
  assert (H1 : (d1 / 2 == d1 * (1 # 2))%Q) by reflexivity.
  assert (H2 : (d2 / 2 == d2 * (1 # 2))%Q) by reflexivity.
  rewrite H1, H2. lra.
Qed.

Section Lookup.

Variable encode : string → result (list Q).
Variable self : RAGService.
Variable email : Email.t.

Lemma candidates_length limit :
  (length (candidates encode self email limit) ≤ Z.to_nat limit)%nat.
Proof.
  unfold candidates.
  destruct (encode (embedding_text email)) as [v|]; simpl; [|lia].
  destruct (Chroma.collections (client self) !! collection self) as [cd|];
    simpl; [|lia].
  destruct (Chroma.dimension_ok cd v); simpl; [|lia].
  unfold Chroma.nearest. rewrite length_take. lia.
Qed.

Lemma candidates_sorted limit :
  StronglySorted (λ p q, (p.2 <= q.2)%Q) (candidates encode self email limit).
Proof.
  unfold candidates.
  destruct (encode (embedding_text email)) as [v|]; [|constructor].
  destruct (Chroma.collections (client self) !! collection self) as [cd|];
    [|constructor].
  destruct (Chroma.dimension_ok cd v); [|constructor].
  apply nearest_sorted.
Qed.

Lemma find_similar_emails_as_filter threshold limit :
  find_similar_emails encode self email threshold limit
  = above_threshold (Email.id email) threshold
      (candidates encode self email limit).
Proof.
  unfold find_similar_emails, try_except, find_similar_emails_body, candidates.
  destruct (encode (embedding_text email)) as [v|]; simpl; [|done].
  unfold Chroma.query.
  destruct (Chroma.collections (client self) !! collection self) as [cd|];
    simpl; [|done].
  case_bool_decide as Hlimit; simpl.
  { unfold Chroma.nearest. replace (Z.to_nat limit) with 0%nat by lia.
    by destruct (Chroma.dimension_ok cd v). }
  destruct (Chroma.dimension_ok cd v); simpl; [|done].
  destruct (Chroma.nearest cd v limit) as [|[id distance] pairs] eqn:Hnearest;
    [done|].
  change (id :: pairs.*1) with (((id, distance) :: pairs).*1).
  by rewrite (scan_results_aligned _ _ _ (((id, distance) :: pairs).*2)).
Qed.

(** X1. [find_similar_emails] returns exactly the store's answers, in the
    store's order, that carry another id than the email's and whose
    similarity 1 - distance/2 reaches the threshold; when the encoder or
    the store fails there are no answers. *)
Theorem find_similar_emails_filters_candidates threshold limit :
  find_similar_emails encode self email threshold limit
  = above_threshold (Email.id email) threshold
      (candidates encode self email limit).
Proof. apply find_similar_emails_as_filter. Qed.

(** X2. A lookup returns at most [limit] matches, and none when [limit]
    is zero or negative. *)
Theorem find_similar_emails_at_most_limit threshold limit :
  (length (find_similar_emails encode self email threshold limit)
   ≤ Z.to_nat limit)%nat.
Proof.
  rewrite find_similar_emails_as_filter. unfold above_threshold.
  etrans; [apply sublist_length, sublist_filter; apply _|].
  rewrite length_fmap. apply candidates_length.
Qed.

End Lookup.

Section LookupOrder.

Variable encode : string → result (list Q).
Variable self : RAGService.
Variable email : Email.t.
Variable limit : Z.

(** X3. Raising the threshold only removes matches: the result for a
    higher threshold is the result for a lower one with some pairs left
    out, the others unchanged and in the same order. *)
Theorem find_similar_emails_threshold_monotone (low high : Q) :
  (low <= high)%Q →
  find_similar_emails encode self email high limit
    `sublist_of` find_similar_emails encode self email low limit.
Proof.
  intros Hle. rewrite !find_similar_emails_as_filter. unfold above_threshold.
  apply sublist_filter_impl. intros p [Hne Hhigh]. split; [done|].
  apply Qle_bool_iff. apply Qle_bool_iff in Hhigh. by apply Qle_trans with high.
Qed.

(** X4. The matches come best first: along the returned list the scores
    never increase. *)
Theorem find_similar_emails_best_first threshold :
  best_first (find_similar_emails encode self email threshold limit).
Proof.
  rewrite find_similar_emails_as_filter. unfold best_first, above_threshold.
  eapply StronglySorted_sublist; [apply sublist_filter; apply _|].
  eapply StronglySorted_fmap; [|apply candidates_sorted].
  intros p q Hpq. simpl. by apply similarity_of_antitone.
Qed.

(** X5. When the store answers and holds no more entries than [limit],
    nothing is missed: every entry stored under another id whose
    similarity to the email reaches the threshold is returned. *)
Theorem find_similar_emails_complete threshold v results id entry :
  encode (embedding_text email) = Ok v →
  Chroma.query (client self) (collection self) v limit = Ok results →
  (Z.of_nat (get_email_count self) ≤ limit)%Z →
  stored self id = Some entry →
  id ≠ Email.id email →
  (threshold <= similarity_of (Chroma.l2 v (Chroma.embedding entry)))%Q →
  (id, similarity_of (Chroma.l2 v (Chroma.embedding entry)))
    ∈ find_similar_emails encode self email threshold limit.
Proof.
  intros Hv Hquery Hcount Hstored Hne Hthreshold.
  rewrite find_similar_emails_as_filter. unfold candidates. rewrite Hv.
  unfold stored, Chroma.get in Hstored.
  unfold get_email_count, Chroma.count, try_except in Hcount.
  unfold Chroma.query in Hquery.
  destruct (Chroma.collections (client self) !! collection self) as [cd|];
    [|done].
  simpl in Hstored.
  destruct (bool_decide (limit ≤ 0)); [done|].
  destruct (Chroma.dimension_ok cd v); [|done]. clear Hquery.
  unfold above_threshold. apply list_elem_of_filter. split.
  { split; [done|]. by apply Qle_bool_iff. }
  apply list_elem_of_fmap.
  exists (id, Chroma.l2 v (Chroma.embedding entry)). split; [done|].
  unfold Chroma.nearest. rewrite take_ge.
  - rewrite (ChromaFacts.nearest_first_perm (Chroma.scored cd v)).
    unfold Chroma.scored. apply list_elem_of_fmap.
    exists (id, entry). split; [done|]. by apply elem_of_map_to_list.
  - rewrite (ChromaFacts.nearest_first_perm (Chroma.scored cd v)).
    unfold Chroma.scored. rewrite length_fmap, length_map_to_list. lia.
Qed.

End LookupOrder.

(** ** What a batch returns *)

Section Batch.

Variable encode : string → result (list Q).
Variable self : RAGService.
Variable threshold : Q.

Lemma detect_loop_primaries_sublist emails :
  ∀ processed,
    DuplicateEmailGroup.primary_email_id
      <$> detect_loop encode self threshold emails [] processed
    `sublist_of` Email.id <$> emails.
Proof.
  induction emails as [|email rest IH]; intros processed; simpl; [done|].
  destruct (decide (Email.id email ∈ processed));
    [by apply sublist_cons|].
  destruct (find_similar_emails encode self email threshold 10)
    as [|p similar]; [by apply sublist_cons|].
  rewrite detect_loop_app. simpl. by apply sublist_skip.
Qed.

Lemma detect_loop_covers emails :
  ∀ processed email,
    email ∈ emails →
    find_similar_emails encode self email threshold 10 ≠ [] →
    Email.id email ∈ processed ∨
    Email.id email
      ∈ all_group_ids (detect_loop encode self threshold emails [] processed).
Proof.
  induction emails as [|head rest IH]; intros processed email Hin Hsimilar.
  { by apply elem_of_nil in Hin. }
  simpl. apply elem_of_cons in Hin as [->|Hin].
  - destruct (decide (Email.id head ∈ processed)); [by left|].
    destruct (find_similar_emails encode self head threshold 10)
      as [|p similar]; [done|].
    right. rewrite detect_loop_app. cbn [app]. rewrite all_group_ids_cons.
    apply elem_of_app. left. apply list_elem_of_here.
  - destruct (decide (Email.id head ∈ processed)); [by apply IH|].
    destruct (find_similar_emails encode self head threshold 10)
      as [|p similar] eqn:Hhead; [by apply IH|].
    rewrite detect_loop_app. cbn [app]. rewrite all_group_ids_cons.
    destruct (IH (processed ∪ {[Email.id head]}
                    ∪ list_to_set (p :: similar).*1) email Hin Hsimilar)
      as [Hprocessed|Hlater].
    + apply elem_of_union in Hprocessed as [Hprocessed|Hmember].
      * apply elem_of_union in Hprocessed as [Hprocessed|Hprimary];
          [by left|].
        apply elem_of_singleton in Hprimary. right.
        apply elem_of_app. left. rewrite Hprimary. apply list_elem_of_here.
      * apply elem_of_list_to_set in Hmember. right.
        apply elem_of_app. left. by apply list_elem_of_further.
    + right. apply elem_of_app. by right.
Qed.

(** X6. The groups come in the order of the batch: the primaries, read
    along the returned list, are ids of batch emails in batch order, so
    there are never more groups than emails. *)
Theorem detect_duplicates_primaries_in_batch_order emails :
  DuplicateEmailGroup.primary_email_id
    <$> detect_duplicates encode self emails threshold
  `sublist_of` Email.id <$> emails ∧
  (length (detect_duplicates encode self emails threshold)
   ≤ length emails)%nat.
Proof.
  rewrite detect_duplicates_unfold.
  pose proof (detect_loop_primaries_sublist emails ∅) as Hsub.
  split; [done|]. apply sublist_length in Hsub. by rewrite !length_fmap in Hsub.
Qed.

(** X7. No batch email that has a match is left out: its id is placed in
    some returned group, as the primary or as a member. *)
Theorem detect_duplicates_covers_matched emails email :
  email ∈ emails →
  find_similar_emails encode self email threshold 10 ≠ [] →
  Email.id email ∈ all_group_ids (detect_duplicates encode self emails threshold).
Proof.
  intros Hin Hsimilar. rewrite detect_duplicates_unfold.
  destruct (detect_loop_covers emails ∅ email Hin Hsimilar) as [Hempty|Hids];
    [|done].
  by apply not_elem_of_empty in Hempty.
Qed.

(** X8. Every member of a returned group is an id stored in the
    collection, differs from the group's primary, and stands beside a
    score that reaches the threshold. *)
Theorem detect_duplicates_members_sound emails g i id :
  g ∈ detect_duplicates encode self emails threshold →
  DuplicateEmailGroup.duplicate_ids g !! i = Some id →
  id ≠ DuplicateEmailGroup.primary_email_id g ∧
  is_Some (stored self id) ∧
  ∃ score, DuplicateEmailGroup.similarity_scores g !! i = Some score ∧
           (threshold <= score)%Q.
Proof.
  rewrite detect_duplicates_unfold.
  intros (email & _ & _ & ->)%detect_loop_group. simpl.
  rewrite !list_lookup_fmap. intros Hid.
  destruct (find_similar_emails encode self email threshold 10 !! i)
    as [[id' score]|] eqn:Hi; [|done].
  injection Hid as ->.
  apply list_elem_of_lookup_2, find_similar_emails_spec in Hi
    as (Hne & Hle & v & entry & _ & Hstored & _).
  split_and!; [done|by exists entry|]. by exists score.
Qed.

(** X9. A group never has more than ten members, however many stored
    entries are close to its primary: the lookup behind it asks the store
    for ten answers. *)
Theorem detect_duplicates_group_size emails g :
  g ∈ detect_duplicates encode self emails threshold →
  (1 ≤ length (DuplicateEmailGroup.duplicate_ids g) ≤ 10)%nat ∧
  (2 ≤ DuplicateEmailGroup.count g ≤ 11)%nat.
Proof.
  rewrite detect_duplicates_unfold.
  intros (email & _ & Hsimilar & ->)%detect_loop_group. simpl.
  rewrite length_fmap.
  pose proof (candidates_length encode self email 10) as Hcandidates.
  assert (Hlen : (length (find_similar_emails encode self email threshold 10)
                  ≤ 10)%nat).
  { rewrite find_similar_emails_as_filter. unfold above_threshold.
    etrans; [apply sublist_length, sublist_filter; apply _|].
    rewrite length_fmap. etrans; [exact Hcandidates|]. done. }
  destruct (find_similar_emails encode self email threshold 10); [done|].
  simpl in *. lia.
Qed.

End Batch.

(** ** What [add_email] and [clear_store] do to the store *)

Section StoreEffects.

Variable encode : string → result (list Q).

Lemma add_email_effect self email :
  add_email encode self email = self ∨
  (stored self (Email.id email) = None ∧
   ∃ v, encode (embedding_text email) = Ok v ∧
        stored (add_email encode self email) (Email.id email)
          = Some (Chroma.mkEntry v (embedding_text email) (email_metadata email)) ∧
        get_email_count (add_email encode self email)
          = S (get_email_count self) ∧
        ∀ id, id ≠ Email.id email →
              stored (add_email encode self email) id = stored self id).
Proof.
  unfold add_email, add_email_body, try_except.
  destruct (encode (embedding_text email)) as [v|]; simpl; [|by left].
  unfold Chroma.add. destruct v as [|x v]; [by left|].
  destruct (Chroma.collections (client self) !! collection self)
    as [cd|] eqn:Hcd; simpl; [|by left].
  destruct (Chroma.dimension_ok cd (x :: v)); simpl; [|by left].
  destruct (Chroma.entries cd !! Email.id email) as [old|] eqn:Hold.
  - left. destruct (Chroma.reject_duplicate_ids (client self)); simpl; [done|].
    by destruct self.
  - right. simpl.
    unfold stored, get_email_count, Chroma.get, Chroma.count, try_except.
    simpl. rewrite Hcd, !lookup_insert_eq. simpl.
    split; [done|]. exists (x :: v). split; [done|].
    rewrite lookup_insert_eq. split; [done|].
    split; [by rewrite map_size_insert_None|].
    intros id Hne. by rewrite lookup_insert_ne.
Qed.

(** X10. [add_email] either leaves the service exactly as it was, or
    stores one new entry under an id that was free: the entry holds the
    embedded text, its embedding and the email's metadata, the count grows
    by one, and what is stored under every other id is untouched. *)
Theorem add_email_adds_one_or_nothing self email :
  add_email encode self email = self ∨
  (stored self (Email.id email) = None ∧
   ∃ v, encode (embedding_text email) = Ok v ∧
        stored (add_email encode self email) (Email.id email)
          = Some (Chroma.mkEntry v (embedding_text email) (email_metadata email)) ∧
        get_email_count (add_email encode self email)
          = S (get_email_count self) ∧
        ∀ id, id ≠ Email.id email →
              stored (add_email encode self email) id = stored self id).
Proof. apply add_email_effect. Qed.

(** X11. [add_email] never removes or changes what is stored: an entry
    found under an id before the call is found there unchanged after it,
    and the count does not go down. *)
Theorem add_email_keeps_entries self email id entry :
  stored self id = Some entry →
  stored (add_email encode self email) id = Some entry ∧
  (get_email_count self ≤ get_email_count (add_email encode self email))%nat.
Proof.
  intros Hstored.
  destruct (add_email_effect self email)
    as [->|(Hfree & v & _ & _ & Hcount & Hframe)]; [done|].
  split; [|lia]. rewrite Hframe; [done|]. intros ->. congruence.
Qed.

(** X12. Clearing twice is clearing once. *)
Theorem clear_store_idempotent self :
  clear_store (clear_store self) = clear_store self.
Proof.
  unfold clear_store, Chroma.delete_collection, Chroma.create_collection.
  destruct (Chroma.collections (client self) !! collection_name)
    as [cd|] eqn:Hcd; simpl.
  - rewrite lookup_delete_eq. simpl. rewrite lookup_insert_eq. simpl.
    rewrite lookup_delete_eq. unfold Chroma.with_collections. simpl.
    by rewrite (insert_delete_eq (<[collection_name := _]> _)), insert_insert_eq.
  - by rewrite Hcd.
Qed.

Lemma detect_loop_no_matches self threshold emails :
  (∀ email, email ∈ emails →
            find_similar_emails encode self email threshold 10 = []) →
  ∀ groups processed,
    detect_loop encode self threshold emails groups processed = groups.
Proof.
  induction emails as [|email rest IH]; intros Hnone groups processed;
    simpl; [done|].
  rewrite (Hnone email) by apply list_elem_of_here.
  destruct (decide (Email.id email ∈ processed)) as [_|_];
    apply IH; intros other Hother; apply Hnone;
    by apply list_elem_of_further.
Qed.

Lemma empty_store_no_candidates self email limit :
  get_email_count self = 0%nat →
  candidates encode self email limit = [].
Proof.
  unfold get_email_count, try_except, Chroma.count, candidates.
  destruct (encode (embedding_text email)) as [v|]; [|done].
  destruct (Chroma.collections (client self) !! collection self) as [cd|];
    [|done].
  intros Hsize%map_size_empty_inv.
  destruct (Chroma.dimension_ok cd v); [|done].
  unfold Chroma.nearest, Chroma.scored. rewrite Hsize, map_to_list_empty.
  simpl. apply take_nil.
Qed.

(** X13. While the count is 0 (a new store, a cleared store, a collection
    that is gone) nothing is ever reported: every lookup returns the empty
    list and every batch returns no group. *)
Theorem empty_store_reports_nothing self email emails threshold limit :
  get_email_count self = 0%nat →
  find_similar_emails encode self email threshold limit = [] ∧
  detect_duplicates encode self emails threshold = [].
Proof.
  intros Hcount. split.
  - rewrite find_similar_emails_as_filter.
    by rewrite empty_store_no_candidates.
  - rewrite detect_duplicates_unfold. apply detect_loop_no_matches.
    intros e _. rewrite find_similar_emails_as_filter.
    by rewrite empty_store_no_candidates.
Qed.

(** X14. On a running service, [clear_store] followed by [add_email] of an
    email for whose text the encoder gives a non-empty embedding always
    stores that email: the entry under its id holds its text, embedding
    and metadata, and the count is 1. *)
Theorem clear_then_add_stores c ops email v :
  encode (embedding_text email) = Ok v →
  v ≠ [] →
  stored (add_email encode
            (clear_store (foldl (apply_op encode) (init c) ops)) email)
         (Email.id email)
    = Some (Chroma.mkEntry v (embedding_text email) (email_metadata email)) ∧
  get_email_count
    (add_email encode
       (clear_store (foldl (apply_op encode) (init c) ops)) email) = 1%nat.
Proof.
  intros Hv Hnonempty.
  destruct (run_collection_exists encode c ops) as [Hname [cd Hcd]].
  set (st := foldl (apply_op encode) (init c) ops) in *.
  unfold clear_store, Chroma.delete_collection, Chroma.create_collection.
  rewrite Hcd. simpl. rewrite lookup_delete_eq. simpl.
  unfold add_email, add_email_body, try_except. rewrite Hv. simpl.
  unfold Chroma.add. destruct v as [|x v]; [done|].
  simpl. rewrite lookup_insert_eq. simpl.
  rewrite lookup_empty. simpl.
  unfold stored, get_email_count, try_except, Chroma.get, Chroma.count. simpl.
  rewrite !lookup_insert_eq. simpl. rewrite lookup_insert_eq.
  split; [done|]. rewrite insert_empty. apply map_size_singleton.
Qed.

End StoreEffects.

(** ** The caller [check_duplicates] *)

(** X15. [check_duplicates] always answers with status "success": it
    reports the size of the batch, a number of groups that never exceeds
    it, and one dictionary per group. *)
Theorem check_duplicates_reports_success
    (encode : string → result (list Q)) (str : exn → string)
    (rag_service : RAGService) (threshold : Q) (emails : list Email.t) :
  dict_get (check_duplicates encode str rag_service threshold emails) "status"
    = Some (PyStr "success") ∧
  dict_get (check_duplicates encode str rag_service threshold emails)
           "total_emails"
    = Some (PyInt (Z.of_nat (length emails))) ∧
  ∃ n groups,
    dict_get (check_duplicates encode str rag_service threshold emails)
             "duplicate_groups" = Some (PyInt n) ∧
    dict_get (check_duplicates encode str rag_service threshold emails)
             "groups" = Some (PyList groups) ∧
    (0 ≤ n ≤ Z.of_nat (length emails))%Z ∧
    Z.of_nat (length groups) = n ∧
    groups = group_dict
               <$> detect_duplicates encode rag_service emails threshold.
Proof.
  split; [reflexivity|]. split; [reflexivity|].
  exists (Z.of_nat (length (detect_duplicates encode rag_service emails threshold))),
         (group_dict <$> detect_duplicates encode rag_service emails threshold).
  split; [reflexivity|]. split; [reflexivity|].
  pose proof (detect_loop_primaries_sublist encode rag_service threshold emails ∅)
    as Hsub.
  apply sublist_length in Hsub. rewrite !length_fmap in Hsub.
  rewrite detect_duplicates_unfold. split; [lia|]. split; [|done].
  by rewrite length_fmap.
Qed.

(** ** Sample runs of the further properties *)

Lemma find_similar_emails_threshold_monotone_witness :
  find_similar_emails sample_encoder sample_store mail_2 sample_threshold 10
    `sublist_of` find_similar_emails sample_encoder sample_store mail_2 (1 # 2) 10.
Proof.
  apply (find_similar_emails_threshold_monotone sample_encoder sample_store
           mail_2 10 (1 # 2) sample_threshold).
  vm_compute. discriminate.
Defined.

Lemma find_similar_emails_complete_witness :
  ("1", similarity_of
          (Chroma.l2 [1 # 2]
             (Chroma.embedding
                (Chroma.mkEntry [0%Q] (embedding_text mail_1)
                   (email_metadata mail_1)))))
    ∈ find_similar_emails sample_encoder sample_store mail_2 sample_threshold 10.
Proof.
  eapply (find_similar_emails_complete sample_encoder sample_store mail_2 10
            sample_threshold [1 # 2] _ "1"
            (Chroma.mkEntry [0%Q] (embedding_text mail_1)
               (email_metadata mail_1))).
  - vm_compute. reflexivity.
  - vm_compute. reflexivity.
  - vm_compute. discriminate.
  - vm_compute. reflexivity.
  - discriminate.
  - vm_compute. discriminate.
Defined.

Lemma detect_duplicates_covers_matched_witness :
  Email.id mail_2
    ∈ all_group_ids
        (detect_duplicates sample_encoder sample_store sample_batch
           sample_threshold).
Proof.
  apply (detect_duplicates_covers_matched sample_encoder sample_store
           sample_threshold sample_batch mail_2).
  - apply list_elem_of_further, list_elem_of_here.
  - vm_compute. discriminate.
Defined.

Lemma detect_duplicates_members_sound_witness :
  "2" ≠ DuplicateEmailGroup.primary_email_id sample_group_1 ∧
  is_Some (stored sample_store "2") ∧
  ∃ score,
    DuplicateEmailGroup.similarity_scores sample_group_1 !! 0%nat = Some score ∧
    (sample_threshold <= score)%Q.
Proof.
  apply (detect_duplicates_members_sound sample_encoder sample_store
           sample_threshold sample_batch sample_group_1 0 "2").
  - vm_compute. apply list_elem_of_here.
  - reflexivity.
Defined.

Lemma detect_duplicates_group_size_witness :
  (1 ≤ length (DuplicateEmailGroup.duplicate_ids sample_group_1) ≤ 10)%nat ∧
  (2 ≤ DuplicateEmailGroup.count sample_group_1 ≤ 11)%nat.
Proof.
  apply (detect_duplicates_group_size sample_encoder sample_store
           sample_threshold sample_batch sample_group_1).
  vm_compute. apply list_elem_of_here.
Defined.

Lemma add_email_keeps_entries_witness :
  stored (add_email sample_encoder
            (add_email sample_encoder (init empty_client) mail_1) mail_2) "1"
    = Some (Chroma.mkEntry [0%Q] (embedding_text mail_1) (email_metadata mail_1)) ∧
  (get_email_count (add_email sample_encoder (init empty_client) mail_1)
   ≤ get_email_count
       (add_email sample_encoder
          (add_email sample_encoder (init empty_client) mail_1) mail_2))%nat.
Proof.
  apply (add_email_keeps_entries sample_encoder
           (add_email sample_encoder (init empty_client) mail_1) mail_2 "1").
  vm_compute. reflexivity.
Defined.

Lemma empty_store_reports_nothing_witness :
  find_similar_emails sample_encoder (clear_store sample_store) mail_2
    sample_threshold 10 = [] ∧
  detect_duplicates sample_encoder (clear_store sample_store) sample_batch
    sample_threshold = [].
Proof.
  apply (empty_store_reports_nothing sample_encoder (clear_store sample_store)
           mail_2 sample_batch sample_threshold 10).
  vm_compute. reflexivity.
Defined.

Lemma clear_then_add_stores_witness :
  stored (add_email full_encoder
            (clear_store
               (foldl (apply_op full_encoder) (init empty_client)
                  [AddEmail mail_1; AddEmail mail_2]))
            mail_1_again)
         (Email.id mail_1_again)
    = Some (Chroma.mkEntry [3%Q] (embedding_text mail_1_again)
              (email_metadata mail_1_again)) ∧
  get_email_count
    (add_email full_encoder
       (clear_store
          (foldl (apply_op full_encoder) (init empty_client)
             [AddEmail mail_1; AddEmail mail_2]))
       mail_1_again) = 1%nat.
Proof.
  apply (clear_then_add_stores full_encoder empty_client
           [AddEmail mail_1; AddEmail mail_2] mail_1_again [3%Q]).
  - vm_compute. reflexivity.
  - discriminate.
Defined.

(** ** Further edges of a lookup *)

Section LookupEdges.

Variable encode : string → result (list Q).
Variable self : RAGService.

(** X16. A lookup sees an email only through its id, its subject and the
    first 1000 characters of its body: two emails that agree on these get
    the same answer, whatever follows in their bodies. *)
Theorem find_similar_emails_ignores_body_tail first second threshold limit :
  Email.id first = Email.id second →
  Email.subject first = Email.subject second →
  substring 0 1000 (Email.body first) = substring 0 1000 (Email.body second) →
  find_similar_emails encode self first threshold limit
  = find_similar_emails encode self second threshold limit.
Proof.
  intros Hid Hsubject Hbody.
  unfold find_similar_emails, find_similar_emails_body, embedding_text.
  by rewrite Hid, Hsubject, Hbody.
Qed.

(** X17. Checking an email right after adding it, as [process_emails]
    does, only ever reports entries that were stored before the email was
    added, never the email itself. *)
Theorem add_then_find_reports_older_entries email threshold limit id score :
  (id, score)
    ∈ find_similar_emails encode (add_email encode self email) email
        threshold limit →
  id ≠ Email.id email ∧
  (threshold <= score)%Q ∧
  ∃ entry, stored self id = Some entry ∧
           stored (add_email encode self email) id = Some entry.
Proof.
  intros Hin.
  apply find_similar_emails_spec in Hin
    as (Hne & Hle & v & entry & _ & Hstored & _).
  split_and!; [done..|]. exists entry. split; [|done].
  destruct (add_email_effect encode self email)
    as [Hsame|(_ & _ & _ & _ & _ & Hframe)].
  - by rewrite Hsame in Hstored.
  - by rewrite <- (Hframe id Hne).
Qed.

(** X18. A lookup never returns the same id twice. *)
Theorem find_similar_emails_ids_distinct email threshold limit :
  NoDup (find_similar_emails encode self email threshold limit).*1.
Proof. apply find_similar_emails_NoDup. Qed.

(** X19. A threshold above 1 matches nothing. *)
Theorem find_similar_emails_threshold_above_one email threshold limit :
  (1 < threshold)%Q →
  find_similar_emails encode self email threshold limit = [].
Proof.
  intros Hhigh.
  destruct (find_similar_emails encode self email threshold limit)
    as [|[id score] rest] eqn:Hfound; [done|]. exfalso.
  assert (Hin : (id, score)
                  ∈ find_similar_emails encode self email threshold limit)
    by (rewrite Hfound; apply list_elem_of_here).
  apply find_similar_emails_spec in Hin as (_ & Hle & v & entry & _ & _ & ->).
  pose proof (ChromaFacts.l2_nonneg v (Chroma.embedding entry)) as Hd.
  unfold similarity_of in Hle.
  set (d := Chroma.l2 v (Chroma.embedding entry)) in *.
  assert (Hhalf : (d / 2 == d * (1 # 2))%Q) by reflexivity.
  rewrite Hhalf in Hle. lra.
Qed.

End LookupEdges.

Lemma find_similar_emails_ignores_body_tail_witness :
  find_similar_emails sample_encoder sample_store
    (mail "9" "Report" (string_of_list_ascii (replicate 1000 "x"%char) +:+ "one"))
    sample_threshold 10
  = find_similar_emails sample_encoder sample_store
      (mail "9" "Report" (string_of_list_ascii (replicate 1000 "x"%char) +:+ "two"))
      sample_threshold 10.
Proof.
  apply (find_similar_emails_ignores_body_tail sample_encoder sample_store
           (mail "9" "Report"
              (string_of_list_ascii (replicate 1000 "x"%char) +:+ "one"))
           (mail "9" "Report"
              (string_of_list_ascii (replicate 1000 "x"%char) +:+ "two"))
           sample_threshold 10).
  - reflexivity.
  - reflexivity.
  - vm_compute. reflexivity.
Defined.

Lemma add_then_find_reports_older_entries_witness :
  "1" ≠ Email.id mail_2 ∧
  (sample_threshold <= 7 # 8)%Q ∧
  ∃ entry,
    stored (add_email sample_encoder (init empty_client) mail_1) "1"
      = Some entry ∧
    stored (add_email sample_encoder
              (add_email sample_encoder (init empty_client) mail_1) mail_2) "1"
      = Some entry.
Proof.
  apply (add_then_find_reports_older_entries sample_encoder
           (add_email sample_encoder (init empty_client) mail_1)
           mail_2 sample_threshold 10 "1" (7 # 8)).
  vm_compute. apply list_elem_of_here.
Defined.

Lemma find_similar_emails_threshold_above_one_witness :
  find_similar_emails sample_encoder sample_store mail_2 (3 # 2) 10 = [].
Proof.
  apply (find_similar_emails_threshold_above_one sample_encoder sample_store
           mail_2 (3 # 2) 10).
  vm_compute. reflexivity.
Defined.
